(** * Excelanalysis: the cleaning pipeline and the data-quality score

    A shallow embedding of [src/service/preprocesss.py]:
    [preprocess_excel], from the frame that [pd.read_excel] produces to the
    answer returned, with the [except] branch that answers a failure to
    read the upload or to write the cleaned sheet, and
    [calculate_data_score]; of [src/main.py], the file names and the
    download route; of [src/service/analyses.py], the chart insights.

    The pandas calls of the source are embedded by what they compute on a
    frame: a frame is an index plus an ordered list of columns, a column is
    a label, a dtype and its cells, a cell is a value or the missing marker
    (NaN / None / NaT).  The calls are read as in pandas 1.x and 2.x, where
    [fillna(method=...)] exists.

    The score is computed in double precision, as the interpreter does,
    with the [round] of Python floats or of numpy floats according to the
    type of the statistics.
    The numbers in the cells of a frame are rationals; a median of an even
    number of values, which pandas rounds to a double, is their exact
    mean.  Column labels are strings of 8-bit characters and the string
    methods are those of ASCII: the properties on names are stated for
    ASCII names. *)

From Stdlib Require Import Ascii String.
From Stdlib Require Import List Bool Arith ZArith Lia Lqa.
From Stdlib Require Import QArith Qcanon Qround Qminmax Qabs Sorted.
From Stdlib Require Import SpecFloat.
Import ListNotations.

Set Implicit Arguments.

Close Scope Qc_scope.
Close Scope Q_scope.
Open Scope nat_scope.

(** ** Cells, columns, frames *)

Module Frame.

(** The values a parsed spreadsheet cell holds. *)
Inductive value : Type :=
| VNum (q : Qc)          (* int64 / float64 *)
| VStr (s : string)      (* str *)
| VTime (t : Z).         (* datetime64, as a time stamp *)

(** [None] is the missing marker. *)
Definition cell : Type := option value.

(** The three classes of dtype the source tells apart:
    [select_dtypes(include=[np.number])], [select_dtypes(include=['object'])]
    and the rest (datetime64, bool), which neither call selects. *)
Inductive dtype : Type := DNumber | DObject | DOther.

Record column : Type := mkColumn {
  label  : string;
  kind   : dtype;
  values : list cell
}.

Record DataFrame : Type := mkFrame {
  index   : list nat;
  columns : list column
}.

Definition nrows (df : DataFrame) : nat := length (index df).
Definition ncols (df : DataFrame) : nat := length (columns df).

(** [df.shape] *)
Definition shape (df : DataFrame) : nat * nat := (nrows df, ncols df).

(** [df.empty]: true when any axis has length 0. *)
Definition empty (df : DataFrame) : bool :=
  (nrows df =? 0) || (ncols df =? 0).

(** *** Decidable equality of cells *)

Definition value_eqb (a b : value) : bool :=
  match a, b with
  | VNum x, VNum y => Qeq_bool x y
  | VStr x, VStr y => String.eqb x y
  | VTime x, VTime y => Z.eqb x y
  | _, _ => false
  end.

(** Missing equals missing, as in [duplicated] and in the spec. *)
Definition cell_eqb (a b : cell) : bool :=
  match a, b with
  | None, None => true
  | Some x, Some y => value_eqb x y
  | _, _ => false
  end.

Fixpoint row_eqb (r1 r2 : list cell) : bool :=
  match r1, r2 with
  | [], [] => true
  | a :: r1', b :: r2' => cell_eqb a b && row_eqb r1' r2'
  | _, _ => false
  end.

Definition isnull (c : cell) : bool :=
  match c with None => true | Some _ => false end.

Definition notnull (c : cell) : bool := negb (isnull c).

(** *** Well-formed frames: what [read_excel] hands over *)

Definition number_cell (c : cell) : bool :=
  match c with None | Some (VNum _) => true | Some _ => false end.

Definition time_cell (c : cell) : bool :=
  match c with None | Some (VTime _) => true | Some _ => false end.

Definition typed_column (c : column) : bool :=
  match kind c with
  | DNumber => forallb number_cell (values c)
  | DObject => true
  | DOther => forallb time_cell (values c)
  end.

Fixpoint distinct (l : list string) : bool :=
  match l with
  | [] => true
  | x :: t => negb (existsb (String.eqb x) t) && distinct t
  end.

(** Every column is as long as the index and holds cells of its dtype;
    labels are distinct ([read_excel] renames repeated headers). *)
Definition well_formed (df : DataFrame) : bool :=
  forallb (fun c => (length (values c) =? nrows df) && typed_column c)
          (columns df)
  && distinct (map label (columns df)).

(** ** The pandas operations the pipeline calls *)

(** [df.isnull().sum().sum()] *)
Definition count_null (l : list cell) : nat :=
  length (filter isnull l).

Definition isnull_sum_sum (df : DataFrame) : nat :=
  list_sum (map (fun c => count_null (values c)) (columns df)).

(** [df.dropna(axis=1, how='all')]: a column stays when some cell of it is
    not missing. *)
Definition all_null (c : column) : bool := forallb isnull (values c).

Definition dropna_all_columns (df : DataFrame) : DataFrame :=
  mkFrame (index df) (filter (fun c => negb (all_null c)) (columns df)).

(** The rows of a frame, in index order. *)
Fixpoint iter_rows (n : nat) (cols : list (list cell)) : list (list cell) :=
  match n with
  | O => []
  | S n' => map (hd None) cols :: iter_rows n' (map (@tl cell) cols)
  end.

Definition rows (df : DataFrame) : list (list cell) :=
  iter_rows (nrows df) (map values (columns df)).

(** [mark_seen seen rs]: for each row, whether an equal row came earlier. *)
Fixpoint mark_seen (seen rs : list (list cell)) : list bool :=
  match rs with
  | [] => []
  | r :: rs' => existsb (row_eqb r) seen :: mark_seen (r :: seen) rs'
  end.

(** [df.duplicated()] with [keep='first']; pandas returns an empty Series
    for a frame with [df.empty]. *)
Definition duplicated (df : DataFrame) : list bool :=
  if empty df then [] else mark_seen [] (rows df).

(** [Series.sum()] of a boolean Series. *)
Definition sum_true (m : list bool) : nat := length (filter id m).

(** Boolean indexing [x[mask]]. *)
Fixpoint select (A : Type) (mask : list bool) (l : list A) : list A :=
  match mask, l with
  | b :: m, x :: t => if b then x :: select m t else select m t
  | _, _ => []
  end.

Definition select_column (mask : list bool) (c : column) : column :=
  mkColumn (label c) (kind c) (select mask (values c)).

(** [df.drop_duplicates()]: [self[-self.duplicated()]], and the frame
    itself when [df.empty]. *)
Definition drop_duplicates (df : DataFrame) : DataFrame :=
  if empty df then df
  else
    let keep := map negb (duplicated df) in
    mkFrame (select keep (index df)) (map (select_column keep) (columns df)).

(** [df.reset_index(drop=True)] *)
Definition reset_index (df : DataFrame) : DataFrame :=
  mkFrame (seq 0 (nrows df)) (columns df).

(** *** Median of a numeric column *)

Definition numbers (l : list cell) : list Qc :=
  flat_map (fun c => match c with Some (VNum q) => [q] | _ => [] end) l.

Section Sorting.
Variable A : Type.
Variable leb : A -> A -> bool.

Fixpoint insert (x : A) (l : list A) : list A :=
  match l with
  | [] => [x]
  | y :: t => if leb x y then x :: l else y :: insert x t
  end.

Definition sort (l : list A) : list A := fold_right insert [] l.
End Sorting.

Definition Qc_leb (a b : Qc) : bool := Qle_bool a b.

Definition two : Qc := Q2Qc 2.

(** [Series.median()], missing cells skipped: the middle value of the
    sorted values, the mean of the two middle ones for an even count, and
    NaN when there is no value.  The mean is the exact one; pandas computes
    it in double precision, so for an even count the value filled in can
    differ from it in the last place. *)
Definition median (l : list cell) : option Qc :=
  let s := sort Qc_leb (numbers l) in
  let n := length s in
  if n =? 0 then None
  else if Nat.odd n then nth_error s (n / 2)
  else match nth_error s (n / 2 - 1), nth_error s (n / 2) with
       | Some a, Some b => Some ((a + b) / two)%Qc
       | _, _ => None
       end.

(** [Series.fillna(v)]; filling with NaN changes nothing. *)
Definition fillna (v : cell) (l : list cell) : list cell :=
  map (fun c => match c with None => v | Some _ => c end) l.

(** *** Mode of an object column *)

Definition present (l : list cell) : list value :=
  flat_map (fun c => match c with Some v => [v] | None => [] end) l.

Definition occurrences (v : value) (l : list value) : nat :=
  length (filter (value_eqb v) l).

(** The distinct values of a list, in order of first appearance. *)
Fixpoint unique (l : list value) : list value :=
  match l with
  | [] => []
  | x :: t => x :: filter (fun y => negb (value_eqb x y)) (unique t)
  end.

(** The values of maximal count, in order of first appearance (the hash
    table pass of [mode]). *)
Definition most_frequent (l : list cell) : list value :=
  let vs := present l in
  let top := list_max (map (fun k => occurrences k vs) (unique vs)) in
  filter (fun k => occurrences k vs =? top) (unique vs).

Definition same_kind (a b : value) : bool :=
  match a, b with
  | VNum _, VNum _ | VStr _, VStr _ | VTime _, VTime _ => true
  | _, _ => false
  end.

(** Python's [<=] on two values of one kind. *)
Definition value_leb (a b : value) : bool :=
  match a, b with
  | VNum x, VNum y => Qle_bool x y
  | VStr x, VStr y => String.leb x y
  | VTime x, VTime y => Z.leb x y
  | _, _ => false
  end.

Definition sortable (l : list value) : bool :=
  match l with
  | [] => true
  | x :: t => forallb (same_kind x) t
  end.

(** [Series.mode()]: the most frequent values, sorted.  Values of one
    kind are sorted by their order; for modes of several kinds (strings
    next to numbers) the order depends on the pandas version, and they are
    left here in order of first appearance. *)
Definition mode (l : list cell) : list value :=
  let ms := most_frequent l in
  if sortable ms then sort value_leb ms else ms.

(** *** Forward and backward fill *)

Fixpoint ffill_from (last : cell) (l : list cell) : list cell :=
  match l with
  | [] => []
  | None :: t => last :: ffill_from last t
  | Some v :: t => Some v :: ffill_from (Some v) t
  end.

(** [fillna(method='ffill')] on one column. *)
Definition ffill (l : list cell) : list cell := ffill_from None l.

(** [fillna(method='bfill')] on one column. *)
Fixpoint bfill (l : list cell) : list cell :=
  match l with
  | [] => []
  | c :: t =>
      let t' := bfill t in
      match c with
      | Some v => Some v :: t'
      | None => hd None t' :: t'
      end
  end.

(** A column with its cells replaced; the dtype recorded is the one the
    column had, no dtype is inferred again from the new cells. *)
Definition map_values (f : list cell -> list cell) (c : column) : column :=
  mkColumn (label c) (kind c) (f (values c)).

Definition map_columns (f : column -> column) (df : DataFrame) : DataFrame :=
  mkFrame (index df) (map f (columns df)).

End Frame.

(** ** Column labels *)

(** The [str] methods of stage 4, on ASCII text; [str(col)] is the
    identity on a label that is a [str]. *)

Module Label.

(** Labels are read as ASCII strings: [str.isspace] and [str.lower] are
    those of the ASCII characters, and a character above 127 is neither
    whitespace nor a capital letter here. *)

(** The ASCII characters for which [str.isspace] holds. *)
Definition is_space (c : ascii) : bool :=
  let n := nat_of_ascii c in
  ((9 <=? n) && (n <=? 13) || (28 <=? n) && (n <=? 32))%nat.

Fixpoint lstrip (s : string) : string :=
  match s with
  | EmptyString => EmptyString
  | String c t => if is_space c then lstrip t else s
  end.

Fixpoint rstrip (s : string) : string :=
  match s with
  | EmptyString => EmptyString
  | String c t =>
      match rstrip t with
      | EmptyString => if is_space c then EmptyString else String c EmptyString
      | t' => String c t'
      end
  end.

(** [s.strip()] *)
Definition strip (s : string) : string := rstrip (lstrip s).

Fixpoint map_chars (f : ascii -> ascii) (s : string) : string :=
  match s with
  | EmptyString => EmptyString
  | String c t => String (f c) (map_chars f t)
  end.

(** [s.replace(" ", "_")] *)
Definition replace_spaces (s : string) : string :=
  map_chars (fun c => if Ascii.eqb c " "%char then "_"%char else c) s.

Definition lower_char (c : ascii) : ascii :=
  let n := nat_of_ascii c in
  if ((65 <=? n) && (n <=? 90))%nat then ascii_of_nat (n + 32) else c.

(** [s.lower()] *)
Definition lower (s : string) : string := map_chars lower_char s.

(** [str(col).strip().replace(" ", "_").lower()] on a [str] label. *)
Definition normalize (col : string) : string :=
  lower (replace_spaces (strip col)).

End Label.

(** ** [calculate_data_score] in double precision *)

(** The floats of the interpreter are IEEE 754 binary64 numbers, here the
    [spec_float] of the standard library with 53 bits of precision; every
    operation rounds to nearest, ties to even.  The integers of the
    statistics are converted exactly as long as they are below 2^53 in
    absolute value. *)

Module Binary64.

Local Open Scope Z_scope.

Definition prec : Z := 53.
Definition emax : Z := 1024.

(** [float(z)] *)
Definition of_int (z : Z) : spec_float := binary_normalize prec emax z 0 false.

Definition add : spec_float -> spec_float -> spec_float := SFadd prec emax.
Definition sub : spec_float -> spec_float -> spec_float := SFsub prec emax.
Definition mul : spec_float -> spec_float -> spec_float := SFmul prec emax.
Definition div : spec_float -> spec_float -> spec_float := SFdiv prec emax.

(** The float literals [0.4] and [0.3]: the doubles nearest to 4/10 and
    3/10. *)
Definition literal_0_4 : spec_float := div (of_int 4) (of_int 10).
Definition literal_0_3 : spec_float := div (of_int 3) (of_int 10).

(** Python's [max(a, b)] and [min(a, b)]: the first argument unless the
    second is strictly larger (smaller). *)
Definition py_max (a b : spec_float) : spec_float :=
  if SFltb a b then b else a.
Definition py_min (a b : spec_float) : spec_float :=
  if SFltb b a then b else a.

(** Nearest integer, ties to the even one. *)
Definition round_half_even (x : Q) : Z :=
  let f := Qfloor x in
  match Qcompare (x - inject_Z f) (1 # 2) with
  | Lt => f
  | Gt => f + 1
  | Eq => if Z.even f then f else f + 1
  end.

(** The exact value of a finite double. *)
Definition to_Q (x : spec_float) : Q :=
  match x with
  | S754_finite s m e =>
      let v := (inject_Z (Zpos m)
                * (if 0 <=? e then inject_Z (2 ^ e)
                   else / inject_Z (2 ^ (- e))))%Q in
      if s then (- v)%Q else v
  | _ => 0%Q
  end.

(** [k / 100.0]: the double nearest to [k / 100]. *)
Definition hundredth (k : Z) : spec_float := div (of_int k) (of_int 100).

(** [round(x, 2)] on a Python float: the exact value of [x] is rounded to
    the nearest multiple of 1/100, ties to even, and the result is the
    double nearest to it; infinities and NaN are returned as they are, and
    a result of zero keeps the sign of [x]. *)
Definition py_round2 (x : spec_float) : spec_float :=
  match x with
  | S754_finite s _ _ =>
      match round_half_even (to_Q x * 100) with
      | Z0 => S754_zero s
      | k => hundredth k
      end
  | _ => x
  end.

(** [numpy.rint]: the nearest integer, ties to the even one; a result of
    zero keeps the sign of the argument. *)
Definition rint (y : spec_float) : spec_float :=
  match y with
  | S754_finite s _ _ =>
      match round_half_even (to_Q y) with
      | Z0 => S754_zero s
      | k => of_int k
      end
  | _ => y
  end.

(** [round(x, 2)] on a [numpy.float64], which numpy computes as
    [rint(x * 100) / 100]: the product is rounded to a double before the
    nearest integer is taken. *)
Definition np_round2 (x : spec_float) : spec_float :=
  div (rint (mul x (of_int 100))) (of_int 100).

(** [round(x, 2)] calls the [__round__] of the type of [x].  When the
    statistics are Python integers the sub-scores and their sum are Python
    floats; when the counts are the [numpy.int64] that pandas returns
    ([df.isnull().sum().sum()], [df.duplicated().sum()]), as they are in
    [preprocess_excel], the sum is a [numpy.float64]. *)
Inductive scalar : Type := Python | Numpy.

Definition round2 (t : scalar) (x : spec_float) : spec_float :=
  match t with
  | Python => py_round2 x
  | Numpy => np_round2 x
  end.

(** The three sub-scores and [final_score] of [calculate_data_score], as
    the interpreter evaluates them on integer statistics. *)
Definition completeness (total_cells missing_after : Z) : spec_float :=
  py_max (of_int 0)
    (sub (of_int 100)
       (mul (div (of_int missing_after) (of_int total_cells)) (of_int 100))).

Definition improvement (missing_before missing_after : Z) : spec_float :=
  let improvement :=
    if 0 <? missing_before
    then mul (div (of_int (missing_before - missing_after))
                (of_int missing_before))
           (of_int 100)
    else of_int 100 in
  py_max (of_int 0) (py_min (of_int 100) improvement).

Definition consistency (original_rows duplicates_removed : Z) : spec_float :=
  if 0 <? original_rows
  then py_max (of_int 0)
         (sub (of_int 100)
            (mul (div (of_int duplicates_removed) (of_int original_rows))
               (of_int 100)))
  else of_int 100.

Definition weighted_sum
    (original_rows original_cols missing_before missing_after
     duplicates_removed : Z) : spec_float :=
  add (add (mul literal_0_4
              (completeness (original_rows * original_cols) missing_after))
         (mul literal_0_3 (improvement missing_before missing_after)))
    (mul literal_0_3 (consistency original_rows duplicates_removed)).

(** [calculate_data_score] on statistics of type [t]; the [0] of the guard
    is the integer 0. *)
Definition calculate_data_score (t : scalar)
    (original_rows original_cols missing_before missing_after
     duplicates_removed : Z) : spec_float :=
  let total_cells := original_rows * original_cols in
  if total_cells =? 0 then of_int 0
  else
    let final_score :=
      weighted_sum original_rows original_cols missing_before missing_after
        duplicates_removed in
    py_max (of_int 0) (py_min (of_int 100) (round2 t final_score)).



End Binary64.

(** ** [service/preprocesss.py] *)

Module Preprocess.

Import Frame.

Local Open Scope Q_scope.

(** *** [calculate_data_score], the arithmetic read exactly *)

(** The formulas of [calculate_data_score] over the rationals: the numbers
    they denote before any rounding of the floating-point operations.  The
    value the interpreter returns is [Binary64.calculate_data_score]. *)

(** Python's [max(a, b)] and [min(a, b)]: the first argument unless the
    second is strictly larger (smaller). *)
Definition py_max (a b : Q) : Q := if Qle_bool b a then a else b.
Definition py_min (a b : Q) : Q := if Qle_bool a b then a else b.

(** [round(x, ndigits)] *)
Definition py_round (x : Q) (ndigits : nat) : Q :=
  let p := inject_Z (10 ^ Z.of_nat ndigits) in
  inject_Z (Binary64.round_half_even (x * p)) / p.

Definition calculate_data_score
    (original_rows original_cols missing_before missing_after
     duplicates_removed : Z) : Q :=
  let total_cells := (original_rows * original_cols)%Z in
  if (total_cells =? 0)%Z then 0
  else
    let completeness :=
      py_max 0 (100 - inject_Z missing_after / inject_Z total_cells * 100) in
    let improvement :=
      if (0 <? missing_before)%Z
      then inject_Z (missing_before - missing_after)
           / inject_Z missing_before * 100
      else 100 in
    let improvement := py_max 0 (py_min 100 improvement) in
    let consistency :=
      if (0 <? original_rows)%Z
      then py_max 0 (100 - inject_Z duplicates_removed
                           / inject_Z original_rows * 100)
      else 100 in
    let final_score :=
      (4 # 10) * completeness + (3 # 10) * improvement
      + (3 # 10) * consistency in
    py_max 0 (py_min 100 (py_round final_score 2)).

(** *** The stages of [preprocess_excel] *)

(** [df[numeric_cols] = df[numeric_cols].fillna(df[numeric_cols].median())] *)
Definition fill_median (c : column) : column :=
  map_values (fillna (option_map VNum (median (values c)))) c.

Definition is_numeric (c : column) : bool :=
  match kind c with DNumber => true | _ => false end.

Definition is_object (c : column) : bool :=
  match kind c with DObject => true | _ => false end.

Definition fill_numeric_cols (df : DataFrame) : DataFrame :=
  if existsb is_numeric (columns df)
  then map_columns (fun c => if is_numeric c then fill_median c else c) df
  else df.

(** The body of [for col in categorical_cols]. *)
Definition fill_mode (c : column) : column :=
  if negb (length (values c) =? 0)%nat then
    match mode (values c) with
    | [] => c
    | m :: _ => map_values (fillna (Some m)) c
    end
  else c.

Definition fill_categorical_cols (df : DataFrame) : DataFrame :=
  if existsb is_object (columns df)
  then map_columns (fun c => if is_object c then fill_mode c else c) df
  else df.

(** [df.fillna(method='ffill', inplace=True)] then
    [df.fillna(method='bfill', inplace=True)] *)
Definition ffill_frame (df : DataFrame) : DataFrame :=
  map_columns (map_values ffill) df.

Definition bfill_frame (df : DataFrame) : DataFrame :=
  map_columns (map_values bfill) df.

(** Stage 3 as a whole. *)
Definition impute (df : DataFrame) : DataFrame :=
  bfill_frame (ffill_frame (fill_categorical_cols (fill_numeric_cols df))).

(** [df.columns = [str(col).strip().replace(" ", "_").lower() ...]] *)
Definition rename_columns (df : DataFrame) : DataFrame :=
  map_columns
    (fun c => mkColumn (Label.normalize (label c)) (kind c) (values c)) df.

(** The ["data"] entry of the answer (the file path and URL left out). *)
Record report : Type := mkReport {
  original_rows : nat;
  original_columns : nat;
  processed_rows : nat;
  processed_columns : nat;
  missing_values_before : nat;
  missing_values_after : nat;
  duplicates_removed : nat;
  null_columns_removed : nat;
  data_quality_score : spec_float
}.

Inductive response : Type :=
| Failure (error message : string)
| Success (df : DataFrame) (data : report).

Definition empty_file : response :=
  Failure "Empty file" "Uploaded Excel file is empty".

(** The body of [preprocess_excel] between [pd.read_excel] and
    [df.to_excel]: from the frame read to the answer returned when the
    cleaned sheet has been written.  [Upload.preprocess_excel] adds the
    reading, the writing and the [except] branch. *)
Definition preprocess_excel (df : DataFrame) : response :=
  if empty df then empty_file
  else
    let df_original := df in
    let '(original_rows, original_cols) := shape df_original in
    (* 1. remove columns with all null values *)
    let cols_before := ncols df in
    let df := dropna_all_columns df in
    let null_columns_removed := (cols_before - ncols df)%nat in
    (* 2. remove duplicate rows *)
    let duplicates_before := sum_true (duplicated df) in
    let df := reset_index (drop_duplicates df) in
    let duplicates_removed := duplicates_before in
    (* 3. handle missing values *)
    let missing_before := isnull_sum_sum df_original in
    let df := impute df in
    let missing_after := isnull_sum_sum df in
    (* 4. normalize column names *)
    let df := rename_columns df in
    let data_score :=
      Binary64.calculate_data_score Binary64.Numpy
        (Z.of_nat original_rows) (Z.of_nat original_cols)
        (Z.of_nat missing_before) (Z.of_nat missing_after)
        (Z.of_nat duplicates_removed) in
    Success df
      (mkReport original_rows original_cols (nrows df) (ncols df)
         missing_before missing_after duplicates_removed
         null_columns_removed data_score).

End Preprocess.

(** * Notions used to state the properties *)

Module Notions.

Import Frame Preprocess.

(** ** Frames and columns *)

(** The column holds a cell that is not missing. *)
Definition has_value (l : list cell) : Prop := exists v, In (Some v) l.

(** Every column is as long as the index. *)
Definition aligned (df : DataFrame) : Prop :=
  Forall (fun c => length (values c) = nrows df) (columns df).

(** The frame that leaves stage 2. *)
Definition deduplicated (df : DataFrame) : DataFrame :=
  reset_index (drop_duplicates (dropna_all_columns df)).

(** What stage 3 does to one column. *)
Definition impute_column (c : column) : column :=
  let c := if is_numeric c then fill_median c else c in
  let c := if is_object c then fill_mode c else c in
  map_values bfill (map_values ffill c).

(** The frame that leaves stage 3. *)
Definition imputed (df : DataFrame) : DataFrame :=
  impute (reset_index (drop_duplicates (dropna_all_columns df))).

(** ** Text columns and their modes *)

Definition text_cell (c : cell) : bool :=
  match c with None | Some (VStr _) => true | Some _ => false end.

(** How often a value occurs among the cells that are not missing. *)
Definition count_of (v : value) (l : list cell) : nat :=
  occurrences v (present l).

(** [v] occurs in the column and no value occurs more often. *)
Definition is_mode (l : list cell) (v : value) : Prop :=
  In (Some v) l /\ forall w, count_of w l <= count_of v l.

(** The head of a list is below every element of it. *)
Definition head_least (A : Type) (leb : A -> A -> bool) (l : list A) : Prop :=
  match l with
  | [] => True
  | x :: _ => forall y, In y l -> leb x y = true
  end.

(** ** Labels *)

(** The characters of a label. *)
Definition chars (s : string) : list ascii := list_ascii_of_string s.

Definition is_upper (c : ascii) : bool :=
  let n := nat_of_ascii c in (65 <=? n) && (n <=? 90).

Definition blank (s : string) : Prop :=
  Forall (fun c => Label.is_space c = true) (chars s).

Definition first_char (s : string) : option ascii := hd_error (chars s).
Definition last_char (s : string) : option ascii := hd_error (rev (chars s)).

Definition not_space (o : option ascii) : Prop :=
  match o with Some c => Label.is_space c = false | None => True end.

(** A character, and a name, of the ASCII range. *)
Definition ascii_char (c : ascii) : bool := nat_of_ascii c <? 128.

Definition ascii_name (s : string) : bool := forallb ascii_char (chars s).

(** The ASCII whitespace: tab, line feed, vertical tab, form feed, carriage
    return, the separators 28 to 31, and the space. *)
Definition whitespace : list ascii :=
  map ascii_of_nat [9; 10; 11; 12; 13; 28; 29; 30; 31; 32].

Definition is_whitespace (c : ascii) : bool :=
  existsb (Ascii.eqb c) whitespace.

(** Lower-casing read off the two alphabets: a capital letter becomes the
    small letter at the same place, any other character is kept. *)
Definition capital_letters : list ascii := chars "ABCDEFGHIJKLMNOPQRSTUVWXYZ".
Definition small_letters : list ascii := chars "abcdefghijklmnopqrstuvwxyz".

Fixpoint translate (c : ascii) (from to : list ascii) : ascii :=
  match from, to with
  | a :: from', b :: to' => if Ascii.eqb c a then b else translate c from' to'
  | _, _ => c
  end.

Definition lower_case_of (c : ascii) : ascii :=
  translate c capital_letters small_letters.

(** ** The score in the words of the specification *)

Section ScoreSpec.

Local Open Scope Q_scope.







End ScoreSpec.

(** ** Sample frames *)

Definition num (z : Z) : cell := Some (VNum (Q2Qc (inject_Z z))).
Definition txt (s : string) : cell := Some (VStr s).

(** The scenario of the specification: [A: [1, null, 3]],
    [B: [null, null, null]], [C: ["x", "x", "y"]]. *)
Definition scenario : DataFrame :=
  mkFrame [0; 1; 2]
    [mkColumn "A" DNumber [num 1; None; num 3];
     mkColumn "B" DNumber [None; None; None];
     mkColumn "C" DObject [txt "x"; txt "x"; txt "y"]].

(** A sheet that has a header row and no data row. *)
Definition header_only : DataFrame :=
  mkFrame [] [mkColumn "A" DObject []].

(** A one-row sheet whose header is [" First Name "]. *)
Definition first_name_sheet : DataFrame :=
  mkFrame [0] [mkColumn " First Name " DObject [txt "Ada"]].

(** Two headers that differ and normalize to the same name. *)
Definition colliding : DataFrame :=
  mkFrame [0]
    [mkColumn "A B" DObject [txt "x"]; mkColumn "A_B" DObject [txt "y"]].

(** Three rows, the first two identical. *)
Definition three_rows : DataFrame :=
  mkFrame [0; 1; 2]
    [mkColumn "name" DObject [txt "a"; txt "a"; txt "b"];
     mkColumn "n" DNumber [num 1; num 1; num 2]].

(** A sheet whose only column is missing in both rows. *)
Definition all_missing : DataFrame :=
  mkFrame [0; 1] [mkColumn "A" DNumber [None; None]].

(** Two rows that stage 2 tells apart and stage 3 makes equal:
    [A: [1, 1]], [B: [null, 5]]. *)
Definition near_duplicates : DataFrame :=
  mkFrame [0; 1]
    [mkColumn "A" DNumber [num 1; num 1];
     mkColumn "B" DNumber [None; num 5]].

(** A text column with a tie: ["b"] and ["a"] occur once each, ["b"]
    first. *)
Definition tied : DataFrame :=
  mkFrame [0; 1; 2] [mkColumn "c" DObject [txt "b"; txt "a"; None]].

End Notions.

(** * File names and routes: [main.py] *)

Module Main.

Local Open Scope string_scope.

(** [s.startswith(p)] *)
Definition startswith (s p : string) : bool := String.prefix p s.

(** [s.endswith(suffix)] *)
Definition endswith (s suffix : string) : bool :=
  (String.length suffix <=? String.length s)%nat
  && String.eqb
       (String.substring (String.length s - String.length suffix)
          (String.length suffix) s)
       suffix.

(** [sub in s] *)
Fixpoint contains (sub s : string) : bool :=
  String.prefix sub s
  || match s with
     | EmptyString => false
     | String _ t => contains sub t
     end.

(** [os.path.join(a, b)] on a POSIX system. *)
Definition os_path_join (a b : string) : string :=
  if startswith b "/" then b
  else if String.eqb a EmptyString || endswith a "/" then (a ++ b)%string
  else (a ++ "/" ++ b)%string.

(** [file.filename.endswith(('.xlsx', '.xls'))], the guard of
    [preprocess_file] and [analyze_file]. *)
Definition excel_filename (filename : string) : bool :=
  endswith filename ".xlsx" || endswith filename ".xls".

(** Where [preprocess_excel] writes the cleaned sheet:
    [os.path.join("processed_data", f"{file.filename}")]. *)
Definition output_path (filename : string) : string :=
  os_path_join "processed_data" filename.

(** The ["file_download_url"] of the answer. *)
Definition file_download_url (filename : string) : string :=
  ("/download/" ++ filename)%string.

Inductive http_response : Type :=
| JSONResponse (status_code : nat) (content : list (string * string))
| FileResponse (path filename media_type : string).

Definition xlsx_media_type : string :=
  "application/vnd.openxmlformats-officedocument.spreadsheetml.sheet".

(** [download_file]; [path_exists] is [os.path.exists] on the file system
    of the moment. *)
Definition download_file (path_exists : string -> bool) (filename : string)
  : http_response :=
  if contains ".." filename || contains "/" filename then
    JSONResponse 400 [("error", "Invalid filename")]
  else
    let file_path := os_path_join "processed_data" filename in
    if negb (path_exists file_path) then
      JSONResponse 404 [("error", "File not found")]
    else FileResponse file_path filename xlsx_media_type.

End Main.

(** * Chart insights: [service/analyses.py] *)

Module Analyses.

Local Open Scope string_scope.

(** An entry of the dict [enhance_charts_with_ai] returns. *)
Record enhanced_chart : Type := mkEnhanced {
  chart_image : string;
  ai_insight : string;
  has_ai_analysis : bool
}.

Section Enhance.

(** What the generative model answers to the prompt built for a chart, by
    chart name: [inl text] for [response.text], [inr msg] when the call
    raises an exception whose [str] is [msg].  Within one call of
    [enhance_charts_with_ai] each chart name is asked about at most
    once. *)
Variable generate_insight : string -> string + string.

(** [chart_data and not chart_data.startswith("Error")] *)
Definition usable (chart_data : string) : bool :=
  negb (String.eqb chart_data EmptyString)
  && negb (Main.startswith chart_data "Error").

(** The first loop, over [charts_to_process]; [inl msg] when a model call
    raises. *)
Fixpoint analyse (charts : list (string * string))
  : string + list (string * enhanced_chart) :=
  match charts with
  | [] => inr []
  | (chart_name, chart_data) :: rest =>
      if usable chart_data then
        match generate_insight chart_name with
        | inr msg => inl msg
        | inl text =>
            match analyse rest with
            | inl msg => inl msg
            | inr out =>
                inr ((chart_name, mkEnhanced chart_data text true) :: out)
            end
        end
      else analyse rest
  end.

(** The second loop, over [list(charts.items())[2:]]. *)
Definition basic (chart : string * string) : string * enhanced_chart :=
  (fst chart,
   mkEnhanced (snd chart) "Basic chart - no AI analysis applied" false).

(** [enhance_charts_with_ai]: [charts] is the dict of chart name to image,
    in insertion order; [inl msg] is the dict [{"error": msg}]. *)
Definition enhance_charts_with_ai (charts : list (string * string))
  : string + list (string * enhanced_chart) :=
  match charts with
  | [] => inl "No charts available for AI enhancement"
  | _ =>
      match analyse (firstn 2 charts) with
      | inl msg => inl ("AI enhancement failed: " ++ msg)%string
      | inr out => inr (out ++ map basic (skipn 2 charts))%list
      end
  end.

End Enhance.

End Analyses.

(** * The request as a whole: reading, cleaning, writing *)

Module Upload.

Import Frame Preprocess.

Local Open Scope string_scope.

(** The uploaded file: its name and its bytes. *)
Record UploadFile : Type := mkUpload {
  filename : string;
  contents : string
}.

Section Request.

(** [await file.read()] and [pd.read_excel(io.BytesIO(contents))]: the
    parsed frame, or [str(e)] of the exception raised. *)
Variable read_excel : string -> DataFrame + string.

(** [os.makedirs("processed_data", exist_ok=True)] and
    [df.to_excel(output_path, index=False)]: [None] when the sheet is
    written, [str(e)] of the exception raised otherwise. *)
Variable to_excel : string -> DataFrame -> option string.

(** The answer of the [except Exception as e] branch. *)
Definition processing_error (message : string) : response :=
  Failure "Processing error" message.

(** [preprocess_excel(file)] with its [try] / [except]: the frame is read,
    cleaned as [Preprocess.preprocess_excel] does, and written; an
    exception on the way is answered with "Processing error". *)
Definition preprocess_excel (file : UploadFile) : response :=
  match read_excel (contents file) with
  | inr message => processing_error message
  | inl df =>
      match Preprocess.preprocess_excel df with
      | Failure error message => Failure error message
      | Success df' data =>
          match to_excel (Main.output_path (filename file)) df' with
          | Some message => processing_error message
          | None => Success df' data
          end
      end
  end.

End Request.

End Upload.

(** * Notions for the further properties *)

Module MoreNotions.

Import Frame.

(** How many numbers of a column are at most (at least) [m]. *)
Definition at_most (m : Qc) (l : list cell) : nat :=
  length (filter (fun x => Qc_leb x m) (numbers l)).

Definition at_least (m : Qc) (l : list cell) : nat :=
  length (filter (fun x => Qc_leb m x) (numbers l)).

(** A chart is analysed by the model when it is usable; [described] says
    that [e] is the analysed entry of chart [c] under the model [g]. *)
Definition described (g : string -> string + string)
    (c : string * string) (e : string * Analyses.enhanced_chart) : Prop :=
  fst e = fst c
  /\ Analyses.chart_image (snd e) = snd c
  /\ Analyses.has_ai_analysis (snd e) = true
  /\ g (fst c) = inl (Analyses.ai_insight (snd e)).

(** Three charts, the second and the third failed to render; a model that
    always answers. *)
Definition sample_charts : list (string * string) :=
  [("barchart_city"%string, "data:image/png;base64,AAAA"%string);
   ("barchart_name"%string, "Error generating chart: x"%string);
   ("barchart_team"%string, "Error generating chart: y"%string)].

Definition sample_model (chart_name : string) : string + string :=
  inl ("about " ++ chart_name)%string.

(** A reader that parses every upload into the given frame, and a writer
    that has no engine for the [.xls] format. *)
Definition reads (df : DataFrame) (contents : string) : DataFrame + string :=
  inl df.

Definition xls_writer (path : string) (df : DataFrame) : option string :=
  if Main.endswith path ".xls"
  then Some "No engine for filetype: 'xls'"%string
  else None.

(** A sheet with a numeric column of three values and one gap. *)
Definition prices : DataFrame :=
  mkFrame [0; 1; 2; 3]
    [mkColumn "price" DNumber
       [Notions.num 5; None; Notions.num 1; Notions.num 3]].

(** A sheet with a date column that has gaps. *)
Definition dated : DataFrame :=
  mkFrame [0; 1; 2; 3; 4]
    [mkColumn "day" DOther
       [None; Some (VTime 5); None; None; Some (VTime 9)]].

End MoreNotions.

(** * Properties *)

Import Frame Preprocess Notions.

Unset Implicit Arguments.

(** ** Equality of cells and rows *)

Lemma value_eqb_eq (a b : value) : value_eqb a b = true <-> a = b.
Proof.
  destruct a as [x|x|x], b as [y|y|y]; simpl;
    try (split; [discriminate | intro H; inversion H]).
  - rewrite Qeq_bool_iff. split.
    + intro H. f_equal. now apply Qc_is_canon.
    + intro H. inversion H. reflexivity.
  - rewrite String.eqb_eq. split; congruence.
  - rewrite Z.eqb_eq. split; congruence.
Qed.

Lemma value_eqb_refl (a : value) : value_eqb a a = true.
Proof. now apply value_eqb_eq. Qed.

Lemma cell_eqb_eq (a b : cell) : cell_eqb a b = true <-> a = b.
Proof.
  destruct a as [x|], b as [y|]; simpl; try (split; congruence).
  rewrite value_eqb_eq. split; congruence.
Qed.

Lemma row_eqb_eq (r1 r2 : list cell) : row_eqb r1 r2 = true <-> r1 = r2.
Proof.
  revert r2. induction r1 as [|a r1 IH]; intros [|b r2]; simpl;
    try (split; congruence).
  rewrite andb_true_iff, cell_eqb_eq, IH. split.
  - intros [-> ->]. reflexivity.
  - intro H. inversion H. auto.
Qed.

Lemma existsb_row_eqb (r : list cell) (seen : list (list cell)) :
  existsb (row_eqb r) seen = true <-> In r seen.
Proof.
  rewrite existsb_exists. split.
  - intros [x [Hin Hx]]. apply row_eqb_eq in Hx. now subst.
  - intro Hin. exists r. split; [assumption | now apply row_eqb_eq].
Qed.

(** ** Boolean indexing *)

Section Select.
Variable A : Type.

Lemma select_nil (mask : list bool) : select mask (@nil A) = [].
Proof. now destruct mask. Qed.

Lemma select_length (mask : list bool) (l : list A) :
  length mask = length l ->
  length (select mask l) = sum_true mask.
Proof.
  unfold sum_true. revert l.
  induction mask as [|b m IH]; intros [|x t] Hlen; simpl in *;
    try discriminate; trivial.
  injection Hlen as Hlen. destruct b; simpl; rewrite IH; trivial.
Qed.

Lemma select_In (mask : list bool) (l : list A) (x : A) :
  In x (select mask l) -> In x l.
Proof.
  revert l. induction mask as [|b m IH]; intros [|y t]; simpl; trivial.
  - intros [].
  - destruct b; simpl; intuition.
Qed.
End Select.

Lemma sum_true_negb (mask : list bool) :
  sum_true mask + sum_true (map negb mask) = length mask.
Proof.
  unfold sum_true. induction mask as [|[] m IH]; simpl; lia.
Qed.

(** Selecting rows column by column selects the rows. *)
Lemma iter_rows_select (mask : list bool) (cols : list (list cell)) :
  iter_rows (sum_true mask) (map (select mask) cols)
  = select mask (iter_rows (length mask) cols).
Proof.
  revert cols. induction mask as [|b m IH]; intro cols.
  - reflexivity.
  - destruct b.
    + change (sum_true (true :: m)) with (S (sum_true m)).
      change (length (true :: m)) with (S (length m)).
      cbn [iter_rows].
      replace (map (hd None) (map (select (true :: m)) cols))
        with (map (hd None) cols)
        by (rewrite map_map; apply map_ext; intros [|x t]; reflexivity).
      replace (map (@tl cell) (map (select (true :: m)) cols))
        with (map (select m) (map (@tl cell) cols))
        by (rewrite !map_map; apply map_ext; intros [|x t]; simpl;
            trivial; now rewrite select_nil).
      rewrite IH. reflexivity.
    + change (sum_true (false :: m)) with (sum_true m).
      change (length (false :: m)) with (S (length m)).
      cbn [iter_rows].
      replace (map (select (false :: m)) cols)
        with (map (select m) (map (@tl cell) cols))
        by (rewrite !map_map; apply map_ext; intros [|x t]; simpl;
            trivial; now rewrite select_nil).
      rewrite IH. reflexivity.
Qed.

Lemma iter_rows_length (n : nat) (cols : list (list cell)) :
  length (iter_rows n cols) = n.
Proof.
  revert cols. induction n as [|n IH]; intro cols; simpl; auto.
Qed.

(** ** First occurrences *)

Lemma mark_seen_length (seen rs : list (list cell)) :
  length (mark_seen seen rs) = length rs.
Proof.
  revert seen. induction rs as [|r rs IH]; intro seen; simpl; auto.
Qed.

(** The rows that [mark_seen] leaves unmarked cover every row. *)
Lemma select_unmarked_complete (seen rs : list (list cell)) (r : list cell) :
  In r rs -> In r seen \/ In r (select (map negb (mark_seen seen rs)) rs).
Proof.
  revert seen. induction rs as [|x rs IH]; intros seen Hin; simpl in *.
  - contradiction.
  - destruct (existsb (row_eqb x) seen) eqn:E; simpl.
    + destruct Hin as [-> | Hin].
      * left. now apply existsb_row_eqb.
      * destruct (IH (x :: seen) Hin) as [[-> | H] | H]; auto.
        left. now apply existsb_row_eqb.
    + destruct Hin as [-> | Hin]; auto.
      destruct (IH (x :: seen) Hin) as [[-> | H] | H]; auto.
Qed.

(** They are pairwise distinct, and none of them was seen before. *)
Lemma select_unmarked_NoDup (seen rs : list (list cell)) :
  NoDup (select (map negb (mark_seen seen rs)) rs)
  /\ (forall r, In r (select (map negb (mark_seen seen rs)) rs) ->
                ~ In r seen).
Proof.
  revert seen. induction rs as [|x rs IH]; intro seen; simpl.
  - split; [constructor | intros r []].
  - destruct (IH (x :: seen)) as [Hnd Hfresh].
    destruct (existsb (row_eqb x) seen) eqn:E; simpl.
    + split; trivial. intros r Hr Hs. apply (Hfresh r Hr). now right.
    + split.
      * constructor; trivial. intro Hx. apply (Hfresh x Hx). now left.
      * intros r [<- | Hr] Hs.
        -- apply existsb_row_eqb in Hs. congruence.
        -- apply (Hfresh r Hr). now right.
Qed.

(** ** Rows and columns *)

Lemma well_formed_aligned (df : DataFrame) :
  well_formed df = true -> aligned df.
Proof.
  unfold well_formed, aligned. rewrite andb_true_iff, forallb_forall.
  intros [H _]. apply Forall_forall. intros c Hc.
  specialize (H c Hc). apply andb_true_iff in H. now apply Nat.eqb_eq.
Qed.

(** A cell of column [j] sits in some row, at position [j]. *)
Lemma cell_in_some_row (n j : nat) (cols : list (list cell)) (x : cell) :
  In x (nth j cols []) -> length (nth j cols []) <= n ->
  exists r, In r (iter_rows n cols) /\ nth j r None = x.
Proof.
  revert cols. induction n as [|n IH]; intros cols Hin Hlen.
  - destruct (nth j cols []); [contradiction | simpl in Hlen; lia].
  - assert (Hj : j < length cols).
    { destruct (Nat.lt_ge_cases j (length cols)) as [H|H]; trivial.
      rewrite nth_overflow in Hin by assumption. contradiction. }
    assert (Hhd : nth j (map (hd None) cols) None = hd None (nth j cols [])).
    { rewrite (nth_indep _ None (hd None []))
        by (now rewrite length_map). apply map_nth. }
    assert (Htl : nth j (map (@tl cell) cols) [] = tl (nth j cols [])).
    { change (@nil cell) with (tl (@nil cell)) at 1. apply map_nth. }
    destruct (nth j cols []) as [|y t] eqn:E; [contradiction|].
    destruct Hin as [-> | Hin].
    + exists (map (hd None) cols). split; [now left | exact Hhd].
    + destruct (IH (map (@tl cell) cols)) as [r [Hr Hx]].
      * now rewrite Htl.
      * rewrite Htl. simpl in *. lia.
      * exists r. split; [now right | exact Hx].
Qed.

(** A value at position [j] of a row is a cell of column [j]. *)
Lemma row_cell_in_column (n j : nat) (cols : list (list cell))
    (r : list cell) (v : value) :
  In r (iter_rows n cols) -> nth j r None = Some v ->
  In (Some v) (nth j cols []).
Proof.
  unfold cell in *.
  revert cols. induction n as [|n IH]; intros cols Hr Hv; simpl in Hr.
  - contradiction.
  - destruct (Nat.lt_ge_cases j (length cols)) as [Hj|Hj].
    + assert (Hhd : nth j (map (hd None) cols) None
                    = hd None (nth j cols [])).
      { rewrite (nth_indep _ None (hd None []))
          by (now rewrite length_map). apply map_nth. }
      assert (Htl : nth j (map (@tl (option value)) cols) []
                    = tl (nth j cols [])).
      { change (@nil (option value)) with (tl (@nil (option value))) at 1.
        apply map_nth. }
      destruct Hr as [<- | Hr].
      * rewrite Hhd in Hv.
        destruct (nth j cols []) as [|y t]; [discriminate|].
        left. exact Hv.
      * specialize (IH _ Hr Hv). unfold cell in *. rewrite Htl in IH.
        destruct (nth j cols []) as [|y t]; [contradiction | now right].
    + assert (Hlen : forall m cs, length cs <= j ->
                forall r', In r' (iter_rows m cs) -> length r' <= j).
      { induction m as [|m IHm]; intros cs Hcs r' Hr'; simpl in Hr'.
        - contradiction.
        - destruct Hr' as [<- | Hr'].
          + now rewrite length_map.
          + apply (IHm (map (@tl cell) cs)); trivial.
            now rewrite length_map. }
      assert (Hr' : In r (iter_rows (S n) cols)) by exact Hr.
      apply (Hlen _ _ Hj) in Hr'.
      rewrite nth_overflow in Hv by assumption. discriminate.
Qed.

(** ** Stage 2 *)

Lemma rows_reset_index (df : DataFrame) : rows (reset_index df) = rows df.
Proof.
  unfold rows, reset_index, nrows. simpl. now rewrite length_seq.
Qed.

Lemma duplicated_length (df : DataFrame) :
  empty df = false -> length (duplicated df) = nrows df.
Proof.
  unfold duplicated. intros ->.
  rewrite mark_seen_length. apply iter_rows_length.
Qed.

Lemma rows_drop_duplicates (df : DataFrame) :
  empty df = false ->
  rows (drop_duplicates df)
  = select (map negb (mark_seen [] (rows df))) (rows df).
Proof.
  intro He. pose proof (duplicated_length df He) as Hlen.
  unfold drop_duplicates, duplicated in *. rewrite He in *.
  set (keep := map negb (mark_seen [] (rows df))).
  assert (Hk : length keep = nrows df)
    by (unfold keep; now rewrite length_map).
  unfold rows at 1, nrows at 1. simpl.
  rewrite select_length by exact Hk.
  rewrite map_map. simpl.
  rewrite <- (map_map values (select keep)).
  rewrite iter_rows_select. now rewrite Hk.
Qed.

Lemma nrows_drop_duplicates (df : DataFrame) :
  nrows (drop_duplicates df) + sum_true (duplicated df) = nrows df.
Proof.
  destruct (empty df) eqn:He.
  - unfold drop_duplicates, duplicated. rewrite He. unfold sum_true.
    simpl. lia.
  - pose proof (duplicated_length df He) as Hlen.
    unfold drop_duplicates. rewrite He. unfold nrows at 1. simpl.
    rewrite select_length by (now rewrite length_map).
    pose proof (sum_true_negb (duplicated df)). lia.
Qed.

Lemma columns_drop_duplicates (df : DataFrame) :
  exists keep,
    columns (drop_duplicates df) = map (select_column keep) (columns df)
    \/ columns (drop_duplicates df) = columns df.
Proof.
  unfold drop_duplicates. destruct (empty df).
  - exists []. now right.
  - eexists. left. reflexivity.
Qed.

(** Dropping duplicate rows leaves a value in every column that had one. *)
Lemma drop_duplicates_has_value (df : DataFrame) :
  aligned df ->
  Forall (fun c => has_value (values c)) (columns df) ->
  Forall (fun c => has_value (values c)) (columns (drop_duplicates df)).
Proof.
  intros Hal Hv. destruct (empty df) eqn:He.
  - unfold drop_duplicates. now rewrite He.
  - pose proof (rows_drop_duplicates df He) as Hrows.
    apply Forall_forall. intros c' Hc'.
    destruct (In_nth _ _ (mkColumn EmptyString DOther []) Hc')
      as [j [Hj Hnth]].
    set (d := mkColumn EmptyString DOther []) in *.
    assert (Hcols : columns (drop_duplicates df)
                    = map (select_column (map negb (duplicated df)))
                          (columns df))
      by (unfold drop_duplicates; now rewrite He).
    assert (Hj' : j < length (columns df))
      by (rewrite Hcols, length_map in Hj; exact Hj).
    pose proof (nth_In (columns df) d Hj') as Hc.
    rewrite Forall_forall in Hv. destruct (Hv _ Hc) as [v Hin].
    unfold aligned in Hal. rewrite Forall_forall in Hal.
    pose proof (Hal _ Hc) as Hlen.
    assert (Hval : forall dfx, nth j (map values (columns dfx)) []
                               = values (nth j (columns dfx) d))
      by (intro dfx; change (@nil cell) with (values d); apply map_nth).
    destruct (cell_in_some_row (nrows df) j (map values (columns df))
                (Some v)) as [r [Hr Hrv]].
    { now rewrite Hval. }
    { rewrite Hval, Hlen. lia. }
    destruct (select_unmarked_complete [] (rows df) r Hr) as [[] | Hkept].
    rewrite <- Hrows in Hkept.
    exists v. rewrite <- Hnth, <- Hval.
    exact (row_cell_in_column _ _ _ _ _ Hkept Hrv).
Qed.

(** ** Stage 3 *)

Lemma map_if_none (p : column -> bool) (f : column -> column)
    (l : list column) :
  existsb p l = false -> map (fun c => if p c then f c else c) l = l.
Proof.
  induction l as [|c l IH]; simpl; trivial.
  intro H. apply orb_false_iff in H as [Hc Hl].
  now rewrite Hc, IH.
Qed.

Lemma columns_fill_numeric (df : DataFrame) :
  columns (fill_numeric_cols df)
  = map (fun c => if is_numeric c then fill_median c else c) (columns df).
Proof.
  unfold fill_numeric_cols.
  destruct (existsb is_numeric (columns df)) eqn:E; trivial.
  now rewrite map_if_none.
Qed.

Lemma columns_fill_categorical (df : DataFrame) :
  columns (fill_categorical_cols df)
  = map (fun c => if is_object c then fill_mode c else c) (columns df).
Proof.
  unfold fill_categorical_cols.
  destruct (existsb is_object (columns df)) eqn:E; trivial.
  now rewrite map_if_none.
Qed.

Lemma columns_impute (df : DataFrame) :
  columns (impute df) = map impute_column (columns df).
Proof.
  unfold impute, bfill_frame, ffill_frame, map_columns. simpl.
  rewrite columns_fill_categorical, columns_fill_numeric, !map_map.
  reflexivity.
Qed.

Lemma index_impute (df : DataFrame) : index (impute df) = index df.
Proof.
  unfold impute, bfill_frame, ffill_frame, map_columns,
    fill_categorical_cols, fill_numeric_cols. simpl.
  destruct (existsb is_numeric (columns df));
    repeat match goal with |- context [if ?b then _ else _] =>
             destruct b end; reflexivity.
Qed.

Lemma fillna_keeps (x : cell) (l : list cell) (v : value) :
  In (Some v) l -> In (Some v) (fillna x l).
Proof.
  intro H. unfold fillna.
  apply (in_map (fun c => match c with None => x | Some _ => c end)) in H.
  exact H.
Qed.

Lemma fill_median_keeps (c : column) :
  has_value (values c) -> has_value (values (fill_median c)).
Proof. intros [v H]. exists v. now apply fillna_keeps. Qed.

Lemma fill_mode_keeps (c : column) :
  has_value (values c) -> has_value (values (fill_mode c)).
Proof.
  intros [v H]. exists v. unfold fill_mode.
  destruct (negb (length (values c) =? 0)); trivial.
  destruct (mode (values c)); trivial. now apply fillna_keeps.
Qed.

Lemma ffill_from_value (v : value) (l : list cell) :
  count_null (ffill_from (Some v) l) = 0.
Proof.
  revert v. induction l as [|[w|] l IH]; intro v; simpl; trivial.
  - apply IH.
  - apply IH.
Qed.

Lemma ffill_from_length (last : cell) (l : list cell) :
  length (ffill_from last l) = length l.
Proof.
  revert last. induction l as [|[v|] l IH]; intro last; simpl;
    now rewrite ?IH.
Qed.

Lemma bfill_length (l : list cell) : length (bfill l) = length l.
Proof.
  induction l as [|[v|] l IH]; simpl; congruence.
Qed.

Lemma bfill_no_null (l : list cell) :
  count_null l = 0 -> bfill l = l.
Proof.
  unfold count_null.
  induction l as [|[v|] l IH]; simpl; trivial.
  - intro H. now rewrite IH.
  - discriminate.
Qed.

(** Forward fill then backward fill leaves no missing cell in a column
    that holds a value. *)
Lemma bfill_ffill_complete (l : list cell) :
  has_value l -> count_null (bfill (ffill l)) = 0.
Proof.
  unfold ffill. induction l as [|[w|] l IH]; intros [v Hv].
  - contradiction.
  - simpl. rewrite bfill_no_null by apply ffill_from_value.
    apply ffill_from_value.
  - destruct Hv as [Hv | Hv]; [discriminate|].
    assert (IH' := IH (ex_intro _ v Hv)).
    cbn [ffill_from bfill].
    destruct (bfill (ffill_from None l)) as [|[x|] t] eqn:E.
    + apply (f_equal (@length cell)) in E.
      rewrite bfill_length, ffill_from_length in E.
      destruct l; [contradiction | discriminate].
    + exact IH'.
    + discriminate IH'.
Qed.

Lemma impute_column_complete (c : column) :
  has_value (values c) -> count_null (values (impute_column c)) = 0.
Proof.
  intro H. unfold impute_column. simpl.
  apply bfill_ffill_complete.
  destruct (is_numeric c) eqn:En.
  - assert (Eo : is_object (fill_median c) = false).
    { unfold is_numeric, is_object in *. simpl. now destruct (kind c). }
    rewrite Eo. now apply fill_median_keeps.
  - destruct (is_object c); trivial. now apply fill_mode_keeps.
Qed.

Lemma list_sum_zero (l : list nat) :
  Forall (fun n => n = 0) l -> list_sum l = 0.
Proof. induction 1; simpl; lia. Qed.

Lemma impute_complete (df : DataFrame) :
  Forall (fun c => has_value (values c)) (columns df) ->
  isnull_sum_sum (impute df) = 0.
Proof.
  intro H. unfold isnull_sum_sum. rewrite columns_impute, map_map.
  apply list_sum_zero. apply Forall_map.
  eapply Forall_impl; [|exact H]. intros c Hc.
  now apply impute_column_complete.
Qed.

(** ** Stage 1 *)

Lemma dropna_has_value (df : DataFrame) :
  Forall (fun c => has_value (values c)) (columns (dropna_all_columns df)).
Proof.
  unfold dropna_all_columns. simpl. apply Forall_forall. intros c Hc.
  apply filter_In in Hc as [_ Hc]. unfold all_null in Hc.
  apply negb_true_iff in Hc.
  induction (values c) as [|[v|] l IH]; simpl in Hc.
  - discriminate.
  - exists v. now left.
  - destruct (IH Hc) as [v Hv]. exists v. now right.
Qed.

Lemma dropna_aligned (df : DataFrame) :
  aligned df -> aligned (dropna_all_columns df).
Proof.
  unfold aligned, dropna_all_columns, nrows. simpl.
  rewrite !Forall_forall. intros H c Hc.
  apply filter_In in Hc as [Hc _]. auto.
Qed.

(** ** The whole pipeline *)

Lemma preprocess_success (df df' : DataFrame) (data : report) :
  preprocess_excel df = Success df' data ->
  empty df = false
  /\ df' = rename_columns (imputed df)
  /\ original_rows data = nrows df
  /\ original_columns data = ncols df
  /\ processed_rows data = nrows df'
  /\ processed_columns data = ncols df'
  /\ missing_values_before data = isnull_sum_sum df
  /\ missing_values_after data = isnull_sum_sum (imputed df)
  /\ duplicates_removed data
     = sum_true (duplicated (dropna_all_columns df))
  /\ null_columns_removed data
     = ncols df - ncols (dropna_all_columns df).
Proof.
  unfold preprocess_excel.
  destruct (empty df); [discriminate|].
  cbn [shape]. intro H. injection H as <- <-. simpl.
  repeat split; reflexivity.
Qed.

Lemma isnull_sum_sum_rename (df : DataFrame) :
  isnull_sum_sum (rename_columns df) = isnull_sum_sum df.
Proof.
  unfold isnull_sum_sum, rename_columns, map_columns. simpl.
  now rewrite map_map.
Qed.

(** After stage 3 no cell is missing. *)
Lemma imputed_complete (df : DataFrame) :
  aligned df -> isnull_sum_sum (imputed df) = 0.
Proof.
  intro Hal. unfold imputed. apply impute_complete.
  change (columns (reset_index ?d)) with (columns d).
  apply drop_duplicates_has_value.
  - now apply dropna_aligned.
  - apply dropna_has_value.
Qed.

(** ** Missing values after cleaning *)

Lemma no_null_cells (df : DataFrame) :
  isnull_sum_sum df = 0 ->
  Forall (fun c => Forall (fun x => x <> None) (values c)) (columns df).
Proof.
  unfold isnull_sum_sum.
  induction (columns df) as [|c l IH]; intro Hz; constructor.
  - simpl in Hz. assert (Hc : count_null (values c) = 0) by lia.
    unfold count_null in Hc. apply Forall_forall. intros x Hx ->.
    assert (Hin : In None (filter isnull (values c)))
      by (apply filter_In; auto).
    destruct (filter isnull (values c)); [contradiction | discriminate].
  - apply IH. simpl in Hz. lia.
Qed.

(** C10: for every well-formed table that [preprocess_excel] accepts, the
    cleaned table holds no missing cell and [missing_values_after] is 0:
    the columns that survive stage 1 hold a value, stage 2 keeps one, and
    forward fill followed by backward fill then reaches every cell. *)
Theorem cleaned_table_has_no_nulls (df df' : DataFrame) (data : report) :
  well_formed df = true ->
  preprocess_excel df = Success df' data ->
  missing_values_after data = 0
  /\ isnull_sum_sum df' = 0
  /\ Forall (fun c => Forall (fun x => x <> None) (values c)) (columns df').
Proof.
  intros Hwf H. apply preprocess_success in H.
  destruct H as (_ & -> & _ & _ & _ & _ & _ & Hafter & _).
  pose proof (imputed_complete df (well_formed_aligned df Hwf)) as Hz.
  split; [congruence|]. split.
  - now rewrite isnull_sum_sum_rename.
  - apply no_null_cells. now rewrite isnull_sum_sum_rename.
Qed.

Lemma cleaned_table_has_no_nulls_witness :
  well_formed scenario = true
  /\ exists df' data,
       preprocess_excel scenario = Success df' data
       /\ missing_values_after data = 0.
Proof.
  split; [reflexivity|].
  destruct (preprocess_excel scenario) as [e m | df' data] eqn:E.
  - vm_compute in E. discriminate E.
  - exists df', data. split; [reflexivity|].
    apply (cleaned_table_has_no_nulls scenario df' data);
      [reflexivity | exact E].
Defined.

(** C4: for every well-formed table that [preprocess_excel] accepts,
    [missing_values_after] (the missing cells after stage 3) is at most
    [missing_values_before] (the missing cells of the original table). *)
Theorem missing_after_le_missing_before
    (df df' : DataFrame) (data : report) :
  well_formed df = true ->
  preprocess_excel df = Success df' data ->
  missing_values_before data = isnull_sum_sum df
  /\ missing_values_after data = isnull_sum_sum (imputed df)
  /\ missing_values_after data <= missing_values_before data.
Proof.
  intros Hwf H. apply preprocess_success in H.
  destruct H as (_ & _ & _ & _ & _ & _ & Hbefore & Hafter & _).
  repeat split; trivial.
  rewrite Hafter, (imputed_complete df (well_formed_aligned df Hwf)).
  lia.
Qed.

Lemma missing_after_le_missing_before_witness :
  well_formed scenario = true
  /\ exists df' data,
       preprocess_excel scenario = Success df' data
       /\ missing_values_before data = 4
       /\ missing_values_after data <= missing_values_before data.
Proof.
  split; [reflexivity|].
  destruct (preprocess_excel scenario) as [e m | df' data] eqn:E.
  - vm_compute in E. discriminate E.
  - exists df', data. split; [reflexivity|].
    destruct (missing_after_le_missing_before scenario df' data)
      as (Hb & _ & Hle); [reflexivity | exact E |].
    split; [rewrite Hb; reflexivity | exact Hle].
Defined.

(** ** Empty input *)

Lemma empty_iff (df : DataFrame) :
  empty df = true <-> nrows df = 0 \/ ncols df = 0.
Proof.
  unfold empty. now rewrite orb_true_iff, !Nat.eqb_eq.
Qed.

(** The cleaning itself fails on an empty frame only. *)
Lemma preprocess_cases (df : DataFrame) :
  (empty df = true /\ preprocess_excel df = empty_file)
  \/ (empty df = false
      /\ exists data,
           preprocess_excel df = Success (rename_columns (imputed df)) data).
Proof.
  unfold preprocess_excel. destruct (empty df); cbn [shape].
  - left. split; reflexivity.
  - right. split; [reflexivity|]. eexists. reflexivity.
Qed.

(** C3, as amended: the request is answered "Empty file" exactly when the
    sheet was read and has zero rows or zero columns; every other failure
    is the "Processing error" of the [except] branch (the sheet cannot be
    read, or the cleaned sheet cannot be written); a sheet that is read
    and is not empty is cleaned, and the answer is the cleaned table with
    its statistics exactly when writing it succeeds.  A failure carries an
    error and a message and no table. *)
Theorem empty_input_failure
    (read_excel : string -> DataFrame + string)
    (to_excel : string -> DataFrame -> option string)
    (file : Upload.UploadFile) :
  let answer := Upload.preprocess_excel read_excel to_excel file in
  let path := Main.output_path (Upload.filename file) in
  (answer = empty_file
   <-> exists df, read_excel (Upload.contents file) = inl df
                  /\ (nrows df = 0 \/ ncols df = 0))
  /\ (forall e m, answer = Failure e m ->
        answer = empty_file \/ e = "Processing error"%string)
  /\ (forall m, read_excel (Upload.contents file) = inr m ->
        answer = Failure "Processing error" m)
  /\ (forall df, read_excel (Upload.contents file) = inl df ->
        nrows df <> 0 -> ncols df <> 0 ->
        let cleaned := rename_columns (imputed df) in
        (to_excel path cleaned = None ->
           exists data, preprocess_excel df = Success cleaned data
                        /\ answer = Success cleaned data)
        /\ (forall m, to_excel path cleaned = Some m ->
              answer = Failure "Processing error" m)).
Proof.
  intros answer path. subst answer path.
  unfold Upload.preprocess_excel, Upload.processing_error.
  destruct (read_excel (Upload.contents file)) as [df | msg] eqn:Er.
  - destruct (preprocess_cases df) as [[He Hp] | [He [data Hp]]]; rewrite Hp.
    + split; [|split; [|split]].
      * split; [|reflexivity]. intros _. exists df.
        split; [reflexivity | now apply empty_iff].
      * intros e m _. now left.
      * discriminate.
      * intros df0 E Hr Hc. injection E as <-.
        apply empty_iff in He. tauto.
    + destruct (to_excel _ (rename_columns (imputed df))) as [msg|] eqn:Ew.
      * split; [|split; [|split]].
        -- split; [discriminate|]. intros (df0 & E & H0).
           injection E as <-. apply empty_iff in H0. congruence.
        -- intros e m E. injection E as <- _. now right.
        -- discriminate.
        -- intros df0 E _ _. injection E as <-. cbv zeta. rewrite Ew.
           split; [discriminate|]. intros m E. now injection E as <-.
      * split; [|split; [|split]].
        -- split; [discriminate|]. intros (df0 & E & H0).
           injection E as <-. apply empty_iff in H0. congruence.
        -- discriminate.
        -- discriminate.
        -- intros df0 E _ _. injection E as <-. cbv zeta. rewrite Ew.
           split; [|discriminate]. intros _. exists data.
           split; [exact Hp | reflexivity].
  - split; [|split; [|split]].
    + split; [discriminate|]. intros (df0 & E & _). discriminate E.
    + intros e m E. injection E as <- _. now right.
    + intros m E. now injection E as <-.
    + discriminate.
Qed.

(** C3 as stated fails twice.  A sheet with one header and no data row is
    refused as empty although it does not have zero rows and zero columns;
    and a sheet that is not empty is not always cleaned: when the cleaned
    sheet cannot be written (here under a [.xls] name) the answer is the
    failure "Processing error". *)
Lemma empty_input_counterexample :
  (preprocess_excel header_only = empty_file
   /\ well_formed header_only = true
   /\ ~ (nrows header_only = 0 /\ ncols header_only = 0)
   /\ Upload.preprocess_excel (MoreNotions.reads header_only)
        MoreNotions.xls_writer (Upload.mkUpload "sales.xlsx" "")
      = empty_file)
  /\ (well_formed scenario = true
      /\ nrows scenario <> 0 /\ ncols scenario <> 0
      /\ Upload.preprocess_excel (MoreNotions.reads scenario)
           MoreNotions.xls_writer (Upload.mkUpload "sales.xls" "")
         = Failure "Processing error" "No engine for filetype: 'xls'").
Proof.
  split.
  - split; [reflexivity|]. split; [reflexivity|]. split; [|reflexivity].
    intros [_ H]. discriminate H.
  - split; [reflexivity|]. split; [discriminate|]. split; [discriminate|].
    vm_compute. reflexivity.
Qed.

(** ** The data-quality score *)

Section Score.

Local Open Scope Q_scope.








(** The two ways of rounding differ: 1.115, whose double lies below it,
    is rounded to 1.11 by Python and to 1.12 by numpy, where the product
    with 100 is rounded up to 111.5 first. *)
Lemma rounding_depends_on_type :
  let x := Binary64.div (Binary64.of_int 1115) (Binary64.of_int 1000) in
  Binary64.round2 Binary64.Python x = Binary64.hundredth 111
  /\ Binary64.round2 Binary64.Numpy x = Binary64.hundredth 112.
Proof. cbv zeta. split; vm_compute; reflexivity. Qed.

(** C7: when [original_rows * original_cols] is 0 the score is exactly 0,
    whatever the other statistics are; the guard comes before the three
    sub-scores are computed. *)
Theorem score_zero_cells (rows cols mb ma d : Z) :
  (rows * cols)%Z = 0%Z ->
  calculate_data_score rows cols mb ma d = 0
  /\ forall t,
       Binary64.calculate_data_score t rows cols mb ma d
       = Binary64.of_int 0.
Proof.
  intro H. unfold calculate_data_score, Binary64.calculate_data_score.
  now rewrite H.
Qed.

Lemma score_zero_cells_witness :
  (0 * 7)%Z = 0%Z /\ calculate_data_score 0 7 5 2 3 = 0.
Proof.
  split; [reflexivity|].
  apply (proj1 (score_zero_cells 0 7 5 2 3 eq_refl)).
Defined.

End Score.

(** ** Column names *)

Lemma labels_drop_duplicates (df : DataFrame) :
  map label (columns (drop_duplicates df)) = map label (columns df).
Proof.
  unfold drop_duplicates. destruct (empty df); trivial.
  simpl. now rewrite map_map.
Qed.

Lemma label_impute_column (c : column) : label (impute_column c) = label c.
Proof.
  unfold impute_column. simpl.
  assert (Hm : forall x, label (fill_mode x) = label x).
  { intro x. unfold fill_mode.
    destruct (negb (length (values x) =? 0)); trivial.
    now destruct (mode (values x)). }
  destruct (is_numeric c); simpl;
    match goal with |- context [if ?b then _ else _] => destruct b end;
    rewrite ?Hm; reflexivity.
Qed.

Lemma labels_imputed (df : DataFrame) :
  map label (columns (imputed df))
  = map label (columns (dropna_all_columns df)).
Proof.
  unfold imputed. rewrite columns_impute, map_map.
  rewrite (map_ext _ label label_impute_column).
  change (columns (reset_index ?d)) with (columns d).
  apply labels_drop_duplicates.
Qed.

Lemma labels_rename (df : DataFrame) :
  map label (columns (rename_columns df))
  = map Label.normalize (map label (columns df)).
Proof.
  unfold rename_columns, map_columns. simpl. now rewrite !map_map.
Qed.

Lemma lstrip_split (s : string) :
  exists pre, s = (pre ++ Label.lstrip s)%string /\ blank pre
              /\ not_space (first_char (Label.lstrip s)).
Proof.
  induction s as [|c s (pre & E & B & F)]; simpl.
  - exists EmptyString. repeat split. constructor.
  - destruct (Label.is_space c) eqn:Ec.
    + exists (String c pre). simpl. repeat split; trivial.
      * now rewrite <- E.
      * constructor; trivial.
    + exists EmptyString. repeat split; trivial. constructor.
Qed.

Lemma last_char_cons (c : ascii) (s : string) :
  last_char (String c s)
  = match last_char s with Some d => Some d | None => Some c end.
Proof.
  unfold last_char, chars. simpl.
  destruct (rev (list_ascii_of_string s)); reflexivity.
Qed.

Lemma rstrip_split (s : string) :
  exists post, s = (Label.rstrip s ++ post)%string /\ blank post
               /\ not_space (last_char (Label.rstrip s))
               /\ first_char (Label.rstrip s)
                  = match Label.rstrip s with
                    | EmptyString => None
                    | _ => first_char s
                    end.
Proof.
  induction s as [|c s (post & E & B & L & F)]; simpl.
  - exists EmptyString. repeat split. constructor.
  - destruct (Label.rstrip s) as [|d r] eqn:Er.
    + destruct (Label.is_space c) eqn:Ec.
      * exists (String c post). simpl in *. repeat split; trivial.
        -- now rewrite <- E.
        -- constructor; trivial.
      * exists post. simpl in *. repeat split; trivial.
        now rewrite <- E.
    + exists post. repeat split; trivial.
      * simpl in *. now rewrite <- E.
      * rewrite last_char_cons.
        destruct (last_char (String d r)) eqn:El; trivial.
        unfold last_char, chars in El. simpl in El.
        destruct (rev (list_ascii_of_string r)); discriminate.
Qed.

(** [strip] removes a blank prefix and a blank suffix, and what is left
    neither starts nor ends with a blank. *)
Lemma strip_trims (s : string) :
  exists pre post,
    s = (pre ++ Label.strip s ++ post)%string
    /\ blank pre /\ blank post
    /\ not_space (first_char (Label.strip s))
    /\ not_space (last_char (Label.strip s)).
Proof.
  unfold Label.strip.
  destruct (lstrip_split s) as (pre & E1 & B1 & F1).
  destruct (rstrip_split (Label.lstrip s)) as (post & E2 & B2 & L2 & F2).
  exists pre, post. repeat split; trivial.
  - now rewrite <- E2.
  - rewrite F2. now destruct (Label.rstrip (Label.lstrip s)).
Qed.

Lemma chars_map_chars (f : ascii -> ascii) (s : string) :
  chars (Label.map_chars f s) = map f (chars s).
Proof.
  unfold chars. induction s as [|c s IH]; simpl; congruence.
Qed.

Lemma chars_normalize (s : string) :
  chars (Label.normalize s)
  = map (fun c => Label.lower_char
                    (if Ascii.eqb c " "%char then "_"%char else c))
        (chars (Label.strip s)).
Proof.
  unfold Label.normalize, Label.lower, Label.replace_spaces.
  now rewrite !chars_map_chars, map_map.
Qed.

Lemma lower_char_spec (c : ascii) :
  Label.lower_char c
  = if is_upper c then ascii_of_nat (nat_of_ascii c + 32) else c.
Proof. reflexivity. Qed.

Lemma normalized_char (c : ascii) :
  let c' := Label.lower_char (if Ascii.eqb c " "%char then "_"%char else c) in
  c' <> " "%char /\ is_upper c' = false.
Proof.
  destruct c as [[] [] [] [] [] [] [] []]; vm_compute;
    split; congruence.
Qed.

Lemma is_space_table (c : ascii) : Label.is_space c = is_whitespace c.
Proof. destruct c as [[] [] [] [] [] [] [] []]; reflexivity. Qed.

Lemma lower_char_table (c : ascii) : Label.lower_char c = lower_case_of c.
Proof. destruct c as [[] [] [] [] [] [] [] []]; reflexivity. Qed.

(** C8: for a table whose surviving column names are ASCII, the names of
    the cleaned table are the names of the columns that survive stage 1,
    each trimmed of leading and trailing whitespace, with its spaces
    replaced by underscores, and lower-cased (a capital letter A-Z becomes
    the small letter, any other character is kept); [" First Name "]
    becomes ["first_name"]. *)
Theorem column_names_normalized (df df' : DataFrame) (data : report) :
  forallb (fun c => ascii_name (label c)) (columns (dropna_all_columns df))
  = true ->
  preprocess_excel df = Success df' data ->
  map label (columns df')
  = map Label.normalize (map label (columns (dropna_all_columns df)))
  /\ (forall s,
        ascii_name s = true ->
        (exists pre post,
           s = (pre ++ Label.strip s ++ post)%string
           /\ blank pre /\ blank post
           /\ not_space (first_char (Label.strip s))
           /\ not_space (last_char (Label.strip s)))
        /\ chars (Label.normalize s)
           = map (fun c => lower_case_of
                             (if Ascii.eqb c " "%char then "_"%char else c))
                 (chars (Label.strip s))
        /\ Forall (fun c => c <> " "%char /\ is_upper c = false)
                  (chars (Label.normalize s)))
  /\ (forall c, ascii_char c = true ->
        Label.is_space c = is_whitespace c
        /\ Label.lower_char c = lower_case_of c)
  /\ Label.normalize " First Name " = "first_name"%string.
Proof.
  intros _ H. apply preprocess_success in H. destruct H as (_ & -> & _).
  split; [|split; [|split]].
  - now rewrite labels_rename, labels_imputed.
  - intros s _. split; [apply strip_trims|]. split.
    + rewrite chars_normalize. apply map_ext. intro c.
      apply lower_char_table.
    + rewrite chars_normalize. apply Forall_map, Forall_forall.
      intros c _. apply normalized_char.
  - intros c _. split; [apply is_space_table | apply lower_char_table].
  - reflexivity.
Qed.

Lemma column_names_normalized_witness :
  forallb (fun c => ascii_name (label c))
    (columns (dropna_all_columns first_name_sheet)) = true
  /\ exists df' data,
       preprocess_excel first_name_sheet = Success df' data
       /\ map label (columns df') = ["first_name"%string].
Proof.
  split; [reflexivity|].
  eexists. eexists. split; [reflexivity|].
  exact (proj1 (column_names_normalized first_name_sheet _ _
                  eq_refl eq_refl)).
Defined.

Lemma distinct_NoDup (l : list string) : distinct l = true -> NoDup l.
Proof.
  induction l as [|x l IH]; simpl; [constructor|].
  rewrite andb_true_iff, negb_true_iff. intros [Hx Hl].
  constructor; auto. intro Hin.
  assert (existsb (String.eqb x) l = true).
  { apply existsb_exists. exists x. split; trivial. apply String.eqb_refl. }
  congruence.
Qed.

(** Dropping columns keeps distinct labels distinct. *)
Lemma filter_labels_NoDup (keep : column -> bool) (cols : list column) :
  NoDup (map label cols) -> NoDup (map label (filter keep cols)).
Proof.
  induction cols as [|c cols IH]; simpl; trivial.
  intro H. inversion H as [|? ? Hc Hrest]; subst.
  destruct (keep c); simpl; auto.
  constructor; auto. intro Hin. apply Hc.
  apply in_map_iff in Hin as (c' & Hc' & Hin).
  apply filter_In in Hin as [Hin _].
  apply in_map_iff. eauto.
Qed.

Lemma NoDup_map_iff (A B : Type) (f : A -> B) (l : list A) :
  NoDup l ->
  NoDup (map f l)
  <-> (forall a b, In a l -> In b l -> f a = f b -> a = b).
Proof.
  induction 1 as [|x l Hx Hl IH]; simpl.
  - split; [intros _ a b [] | constructor].
  - split.
    + intro H. inversion H as [|? ? Hfx Hfl]; subst.
      intros a b [<- | Ha] [<- | Hb] E; trivial.
      * exfalso. apply Hfx. rewrite E. now apply in_map.
      * exfalso. apply Hfx. rewrite <- E. now apply in_map.
      * apply (proj1 IH Hfl); trivial.
    + intro Hinj. constructor.
      * intro Hin. apply in_map_iff in Hin as (y & Hy & Hin).
        assert (y = x) by (apply Hinj; auto). congruence.
      * apply IH. intros a b Ha Hb. apply Hinj; auto.
Qed.

Lemma surviving_labels_NoDup (df : DataFrame) :
  well_formed df = true ->
  NoDup (map label (columns (dropna_all_columns df))).
Proof.
  unfold well_formed. rewrite andb_true_iff. intros [_ H].
  unfold dropna_all_columns. simpl.
  apply filter_labels_NoDup. now apply distinct_NoDup.
Qed.

Lemma ncols_imputed (df : DataFrame) :
  ncols (rename_columns (imputed df)) = ncols (dropna_all_columns df).
Proof.
  unfold ncols. rewrite <- (length_map label), labels_rename, length_map.
  now rewrite labels_imputed, length_map.
Qed.

(** C9, as amended: stage 4 renames the columns and neither merges nor
    drops any, so the cleaned table has as many columns as survive stage 1,
    and its names are pairwise distinct exactly when no two surviving
    original names normalize to the same string. *)
Theorem names_distinct_iff_no_collision
    (df df' : DataFrame) (data : report) :
  well_formed df = true ->
  preprocess_excel df = Success df' data ->
  ncols df' = ncols (dropna_all_columns df)
  /\ (NoDup (map label (columns df'))
      <-> forall a b,
            In a (map label (columns (dropna_all_columns df))) ->
            In b (map label (columns (dropna_all_columns df))) ->
            Label.normalize a = Label.normalize b -> a = b).
Proof.
  intros Hwf H. apply preprocess_success in H. destruct H as (_ & -> & _).
  split; [apply ncols_imputed|].
  rewrite labels_rename, labels_imputed.
  apply NoDup_map_iff. now apply surviving_labels_NoDup.
Qed.

Lemma names_distinct_iff_no_collision_witness :
  well_formed scenario = true
  /\ exists df' data,
       preprocess_excel scenario = Success df' data
       /\ ncols df' = 2.
Proof.
  split; [reflexivity|].
  destruct (preprocess_excel scenario) as [e m | df' data] eqn:E.
  - vm_compute in E. discriminate E.
  - exists df', data. split; [reflexivity|].
    destruct (names_distinct_iff_no_collision scenario df' data)
      as [Hn _]; [reflexivity | exact E |].
    rewrite Hn. reflexivity.
Defined.

(** C9 as stated fails: the well-formed sheet with headers ["A B"] and
    ["A_B"] is cleaned into a table with two columns named ["a_b"]. *)
Lemma names_collide_counterexample :
  well_formed colliding = true
  /\ exists df' data,
       preprocess_excel colliding = Success df' data
       /\ map label (columns df') = ["a_b"%string; "a_b"%string]
       /\ ~ NoDup (map label (columns df')).
Proof.
  split; [reflexivity|].
  eexists. eexists. split; [reflexivity|]. split; [reflexivity|].
  simpl. intro H. inversion H as [|? ? Hx _]; subst.
  apply Hx. now left.
Qed.

(** ** Duplicate rows *)

(** A row is marked exactly when it was seen before or an equal row
    precedes it. *)
Lemma mark_seen_nth (seen rs : list (list cell)) (i : nat) :
  i < length rs ->
  nth i (mark_seen seen rs) false = true
  <-> In (nth i rs []) seen
      \/ exists j, j < i /\ nth j rs [] = nth i rs [].
Proof.
  revert seen i. induction rs as [|r rs IH]; intros seen i Hi; simpl in Hi.
  - lia.
  - destruct i as [|i]; simpl.
    + rewrite existsb_row_eqb. split; auto.
      intros [H | (j & Hj & _)]; trivial. lia.
    + rewrite IH by lia. simpl. split.
      * intros [[<- | H] | (j & Hj & E)].
        -- right. exists 0. split; [lia | reflexivity].
        -- now left.
        -- right. exists (S j). split; [lia | assumption].
      * intros [H | (j & Hj & E)]; [now left; right|].
        destruct j as [|j]; [left; left; assumption|].
        right. exists j. split; [lia | assumption].
Qed.

Lemma nrows_impute (df : DataFrame) : nrows (impute df) = nrows df.
Proof. unfold nrows. now rewrite index_impute. Qed.

Lemma nrows_reset_index (df : DataFrame) : nrows (reset_index df) = nrows df.
Proof. unfold reset_index, nrows. simpl. apply length_seq. Qed.

(** C6, as amended: when a column survives stage 1, stage 2 treats two rows
    as duplicates exactly when they agree cell by cell (missing equal to
    missing), marks a row exactly when an equal row precedes it, keeps the
    unmarked rows in their order (so the survivors are pairwise distinct
    and every row has its first occurrence among them), renumbers the index
    from zero, and reports the number of dropped rows.  When no column
    survives stage 1, stage 2 marks no row, keeps every row, renumbers the
    index from zero and reports 0 duplicates. *)
Theorem duplicate_rows_removed (df df' : DataFrame) (data : report) :
  preprocess_excel df = Success df' data ->
  let df1 := dropna_all_columns df in
  let df2 := deduplicated df in
  (ncols df1 <> 0 ->
     (forall r1 r2, row_eqb r1 r2 = true <-> r1 = r2)
     /\ cell_eqb None None = true
     /\ (forall i, i < nrows df1 ->
           nth i (duplicated df1) false = true
           <-> exists j, j < i /\ nth j (rows df1) [] = nth i (rows df1) [])
     /\ rows df2 = select (map negb (duplicated df1)) (rows df1)
     /\ NoDup (rows df2)
     /\ (forall r, In r (rows df1) <-> In r (rows df2))
     /\ index df2 = seq 0 (nrows df2)
     /\ duplicates_removed data + nrows df2 = nrows df1
     /\ processed_rows data = nrows df2)
  /\ (ncols df1 = 0 ->
       duplicated df1 = []
       /\ duplicates_removed data = 0
       /\ columns df2 = columns df1
       /\ rows df2 = rows df1
       /\ nrows df2 = nrows df1
       /\ index df2 = seq 0 (nrows df2)
       /\ processed_rows data = original_rows data).
Proof.
  intros H df1 df2. apply preprocess_success in H.
  destruct H as (He & -> & Horig & _ & Hrows & _ & _ & _ & Hdup & _).
  assert (Hp : processed_rows data = nrows df2).
  { rewrite Hrows. change (nrows (rename_columns (imputed df)))
      with (nrows (imputed df)).
    unfold imputed. now rewrite nrows_impute. }
  assert (Hix : index df2 = seq 0 (nrows df2)).
  { unfold df2, deduplicated, reset_index. simpl. f_equal.
    unfold nrows. simpl. now rewrite length_seq. }
  split; intro Hcols.
  - assert (He1 : empty df1 = false).
    { unfold empty in *. apply orb_false_iff in He as [Hr _].
      apply orb_false_iff. split; [exact Hr | now apply Nat.eqb_neq]. }
    assert (Hd : duplicated df1 = mark_seen [] (rows df1))
      by (unfold duplicated; now rewrite He1).
    assert (Hr2 : rows df2 = select (map negb (duplicated df1)) (rows df1)).
    { unfold df2, deduplicated. rewrite rows_reset_index, Hd.
      now apply rows_drop_duplicates. }
    split; [exact row_eqb_eq|]. split; [reflexivity|]. split.
    { intros i Hi. rewrite Hd, mark_seen_nth.
      - split; [intros [[] | H]; exact H | now right].
      - unfold rows. now rewrite iter_rows_length. }
    split; [exact Hr2|]. rewrite Hr2, Hd. split.
    { apply select_unmarked_NoDup. } split.
    { intro r. split.
      - intro Hin. now destruct (select_unmarked_complete [] _ r Hin).
      - apply select_In. } split.
    { exact Hix. }
    assert (Hn : nrows df2 = nrows (drop_duplicates df1))
      by apply nrows_reset_index.
    split; [|exact Hp].
    rewrite Hdup, Hn. fold df1.
    pose proof (nrows_drop_duplicates df1). lia.
  - assert (He1 : empty df1 = true).
    { unfold empty. rewrite Hcols. apply orb_true_r. }
    assert (Hd : duplicated df1 = [])
      by (unfold duplicated; now rewrite He1).
    assert (Hdd : drop_duplicates df1 = df1)
      by (unfold drop_duplicates; now rewrite He1).
    assert (Hn : nrows df2 = nrows df1).
    { unfold df2, deduplicated. fold df1.
      now rewrite Hdd, nrows_reset_index. }
    split; [exact Hd|]. split.
    { rewrite Hdup. fold df1. now rewrite Hd. } split.
    { unfold df2, deduplicated. fold df1. now rewrite Hdd. } split.
    { unfold df2, deduplicated. fold df1.
      now rewrite Hdd, rows_reset_index. } split.
    { exact Hn. } split.
    { exact Hix. }
    rewrite Hp, Hn, Horig. reflexivity.
Qed.

Lemma duplicate_rows_removed_witness :
  exists df' data,
    preprocess_excel three_rows = Success df' data
    /\ ncols (dropna_all_columns three_rows) <> 0
    /\ duplicates_removed data = 1
    /\ processed_rows data = 2
    /\ index (deduplicated three_rows) = [0; 1].
Proof.
  destruct (preprocess_excel three_rows) as [e m | df' data] eqn:E.
  - vm_compute in E. discriminate E.
  - assert (Hc : ncols (dropna_all_columns three_rows) <> 0)
      by (vm_compute; discriminate).
    exists df', data. split; [reflexivity|]. split; [exact Hc|].
    destruct (proj1 (duplicate_rows_removed three_rows df' data E) Hc)
      as (_ & _ & _ & _ & _ & _ & Hi & Hd & Hp).
    assert (Hn : nrows (deduplicated three_rows) = 2) by reflexivity.
    rewrite Hn in *. change (nrows (dropna_all_columns three_rows))
      with 3 in Hd.
    split; [lia|]. split; [exact Hp | exact Hi].
Defined.

(** C6 as stated fails when no column survives stage 1: the two rows of
    [all_missing] are then equal (they have no cell), and
    [duplicated] / [drop_duplicates], which return at once on an empty
    frame, drop neither and report 0. *)
Lemma duplicate_rows_counterexample :
  well_formed all_missing = true
  /\ rows (dropna_all_columns all_missing) = [[]; []]
  /\ exists df' data,
       preprocess_excel all_missing = Success df' data
       /\ duplicates_removed data = 0
       /\ processed_rows data = 2
       /\ rows df' = [[]; []]
       /\ ~ NoDup (rows df').
Proof.
  split; [reflexivity|]. split; [reflexivity|].
  eexists. eexists. split; [reflexivity|].
  repeat split.
  intro H. inversion H as [|? ? Hx _]; subst. apply Hx. now left.
Qed.

(** ** Cleaning a cleaned table *)

Lemma select_column_aligned (keep : list bool) (df : DataFrame) :
  length keep = nrows df -> aligned df ->
  aligned (mkFrame (select keep (index df))
                   (map (select_column keep) (columns df))).
Proof.
  unfold aligned, nrows. simpl. intros Hk Hal.
  apply Forall_map. eapply Forall_impl; [|exact Hal].
  intros c Hc. simpl. rewrite !select_length; congruence.
Qed.

Lemma drop_duplicates_aligned (df : DataFrame) :
  aligned df -> aligned (drop_duplicates df).
Proof.
  intro Hal. destruct (empty df) eqn:He.
  - unfold drop_duplicates. now rewrite He.
  - pose proof (duplicated_length df He) as Hlen.
    unfold drop_duplicates. rewrite He.
    apply select_column_aligned; trivial. now rewrite length_map.
Qed.

(** The first row is never a duplicate. *)
Lemma kept_row (df : DataFrame) :
  nrows df <> 0 -> nrows (drop_duplicates df) <> 0.
Proof.
  intro Hn. destruct (empty df) eqn:He.
  - unfold drop_duplicates. now rewrite He.
  - pose proof (duplicated_length df He) as Hlen.
    unfold drop_duplicates. rewrite He. unfold nrows at 1. simpl.
    rewrite select_length by (now rewrite length_map).
    unfold duplicated in *. rewrite He in *.
    destruct (rows df) as [|r rs] eqn:Er.
    + simpl in Hlen. congruence.
    + simpl. unfold sum_true. simpl. discriminate.
Qed.

Lemma fillna_length (x : cell) (l : list cell) :
  length (fillna x l) = length l.
Proof. apply length_map. Qed.

Lemma impute_column_length (c : column) :
  length (values (impute_column c)) = length (values c).
Proof.
  unfold impute_column. simpl. unfold ffill.
  rewrite bfill_length, ffill_from_length.
  assert (Hm : forall x, length (values (fill_mode x)) = length (values x)).
  { intro x. unfold fill_mode.
    destruct (negb (length (values x) =? 0)); trivial.
    destruct (mode (values x)); trivial. apply fillna_length. }
  destruct (is_numeric c);
    match goal with |- context [if ?b then _ else _] => destruct b end;
    rewrite ?Hm; simpl; rewrite ?fillna_length; reflexivity.
Qed.

Lemma columns_rename (df : DataFrame) :
  columns (rename_columns df)
  = map (fun c => mkColumn (Label.normalize (label c)) (kind c) (values c))
        (columns df).
Proof. reflexivity. Qed.

Lemma imputed_aligned (df : DataFrame) :
  aligned df -> aligned (rename_columns (imputed df)).
Proof.
  intro Hal.
  assert (H2 : aligned (deduplicated df)).
  { apply dropna_aligned, drop_duplicates_aligned in Hal.
    unfold aligned, deduplicated in *. rewrite nrows_reset_index.
    exact Hal. }
  unfold aligned in *.
  change (nrows (rename_columns (imputed df))) with (nrows (imputed df)).
  rewrite columns_rename. unfold imputed.
  rewrite nrows_impute, columns_impute. fold (deduplicated df).
  apply Forall_map, Forall_map. eapply Forall_impl; [|exact H2].
  intros c Hc.
  change (length (values (impute_column c)) = nrows (deduplicated df)).
  now rewrite impute_column_length.
Qed.

Lemma has_value_not_all_null (c : column) :
  has_value (values c) -> all_null c = false.
Proof.
  intros [v Hv]. unfold all_null.
  destruct (forallb isnull (values c)) eqn:E; trivial.
  rewrite forallb_forall in E. specialize (E _ Hv). discriminate E.
Qed.

(** A frame without missing cells and with a row loses no column in
    stage 1. *)
Lemma dropna_complete_frame (df : DataFrame) :
  aligned df -> nrows df <> 0 -> isnull_sum_sum df = 0 ->
  dropna_all_columns df = df.
Proof.
  intros Hal Hn Hz. unfold dropna_all_columns.
  assert (Hall : forall c, In c (columns df) -> negb (all_null c) = true).
  { intros c Hc. apply negb_true_iff, has_value_not_all_null.
    pose proof (no_null_cells df Hz) as Hnn.
    rewrite Forall_forall in Hnn. specialize (Hnn c Hc).
    unfold aligned in Hal. rewrite Forall_forall in Hal.
    specialize (Hal c Hc).
    destruct (values c) as [|[v|] l].
    - simpl in Hal. congruence.
    - exists v. now left.
    - inversion Hnn; congruence. }
  rewrite forallb_filter_id.
  - now destruct df.
  - now apply forallb_forall.
Qed.

Lemma cleaned_rows_and_nulls (df df1 : DataFrame) (d1 : report) :
  aligned df ->
  preprocess_excel df = Success df1 d1 ->
  aligned df1 /\ nrows df1 <> 0 /\ isnull_sum_sum df1 = 0
  /\ missing_values_after d1 = 0.
Proof.
  intros Hal H. apply preprocess_success in H.
  destruct H as (He & -> & _ & _ & _ & _ & _ & Ha & _).
  pose proof (imputed_complete df Hal) as Hz.
  split; [now apply imputed_aligned|]. split; [|split].
  - change (nrows (rename_columns (imputed df))) with (nrows (imputed df)).
    unfold imputed. rewrite nrows_impute, nrows_reset_index.
    pose proof (nrows_drop_duplicates (dropna_all_columns df)) as Hn.
    change (nrows (dropna_all_columns df)) with (nrows df) in Hn.
    unfold empty in He. apply orb_false_iff in He as [Hr _].
    apply Nat.eqb_neq in Hr.
    pose proof (kept_row (dropna_all_columns df)) as Hk.
    change (nrows (dropna_all_columns df)) with (nrows df) in Hk. lia.
  - now rewrite isnull_sum_sum_rename.
  - congruence.
Qed.

(** C1, as amended: cleaning a cleaned table is refused as empty when the
    first cleaning left no column; otherwise it removes no all-null column
    and leaves [missing_values_after] unchanged (it is 0 both times), and
    it removes the rows that repeat an earlier row of the cleaned table. *)
Theorem cleaning_twice (df df1 : DataFrame) (d1 : report) :
  well_formed df = true ->
  preprocess_excel df = Success df1 d1 ->
  (ncols df1 = 0 /\ preprocess_excel df1 = empty_file)
  \/ (ncols df1 <> 0
      /\ exists df2 d2,
           preprocess_excel df1 = Success df2 d2
           /\ null_columns_removed d2 = 0
           /\ missing_values_after d2 = missing_values_after d1
           /\ missing_values_after d2 = 0
           /\ duplicates_removed d2 = sum_true (duplicated df1)).
Proof.
  intros Hwf H.
  pose proof (well_formed_aligned df Hwf) as Hal.
  destruct (cleaned_rows_and_nulls df df1 d1 Hal H) as (Hal1 & Hn1 & Hz1 & Ha1).
  destruct (Nat.eq_dec (ncols df1) 0) as [Hc | Hc].
  - left. split; trivial. unfold preprocess_excel, empty.
    rewrite Hc, Nat.eqb_refl, orb_true_r. reflexivity.
  - right. split; trivial.
    destruct (preprocess_excel df1) as [e m | df2 d2] eqn:E.
    + exfalso. unfold preprocess_excel, empty in E.
      apply Nat.eqb_neq in Hc, Hn1. rewrite Hc, Hn1 in E. discriminate E.
    + exists df2, d2. split; trivial.
      destruct (preprocess_success df1 df2 d2 E)
        as (_ & _ & _ & _ & _ & _ & _ & Ha2 & Hd2 & Hnc2).
      rewrite (dropna_complete_frame df1 Hal1 Hn1 Hz1) in Hd2, Hnc2.
      rewrite (imputed_complete df1 Hal1) in Ha2.
      repeat split; try congruence. lia.
Qed.

Lemma cleaning_twice_witness :
  well_formed scenario = true
  /\ exists df1 d1,
       preprocess_excel scenario = Success df1 d1
       /\ exists df2 d2,
            preprocess_excel df1 = Success df2 d2
            /\ null_columns_removed d2 = 0
            /\ missing_values_after d2 = missing_values_after d1.
Proof.
  split; [reflexivity|].
  destruct (preprocess_excel scenario) as [e m | df1 d1] eqn:E.
  - vm_compute in E. discriminate E.
  - exists df1, d1. split; [reflexivity|].
    destruct (cleaning_twice scenario df1 d1 eq_refl E)
      as [[Hc _] | (_ & df2 & d2 & H2 & Hn & Hm & _)].
    + exfalso. apply preprocess_success in E.
      destruct E as (_ & -> & _). discriminate Hc.
    + exists df2, d2. repeat split; assumption.
Defined.

(** C1 as stated fails: cleaning [near_duplicates] drops no row and fills
    the missing [B] with the median 5, which makes its two rows equal; the
    second cleaning then removes one duplicate row. *)
Lemma cleaning_twice_counterexample :
  well_formed near_duplicates = true
  /\ exists df1 d1 df2 d2,
       preprocess_excel near_duplicates = Success df1 d1
       /\ preprocess_excel df1 = Success df2 d2
       /\ duplicates_removed d1 = 0
       /\ duplicates_removed d2 = 1
       /\ duplicates_removed d2 <> 0.
Proof.
  split; [reflexivity|].
  eexists. eexists. eexists. eexists.
  split; [reflexivity|]. split; [reflexivity|].
  split; [reflexivity|]. split; [reflexivity | discriminate].
Qed.

(** ** Mode imputation *)

(** *** Insertion sort yields its least element first *)

Section SortFacts.
Variable A : Type.
Variable leb : A -> A -> bool.
Hypothesis leb_total : forall x y, leb x y = true \/ leb y x = true.
Hypothesis leb_trans :
  forall x y z, leb x y = true -> leb y z = true -> leb x z = true.

Lemma insert_In (x y : A) (l : list A) :
  In y (insert leb x l) <-> y = x \/ In y l.
Proof.
  induction l as [|z l IH]; simpl.
  - intuition.
  - destruct (leb x z); simpl; rewrite ?IH; intuition.
Qed.

Lemma sort_In (y : A) (l : list A) : In y (sort leb l) <-> In y l.
Proof.
  induction l as [|x l IH]; simpl; [tauto|].
  rewrite insert_In, IH. intuition.
Qed.

Lemma leb_refl (x : A) : leb x x = true.
Proof. now destruct (leb_total x x). Qed.

Lemma insert_head_least (x : A) (l : list A) :
  head_least leb l -> head_least leb (insert leb x l).
Proof.
  destruct l as [|z l]; simpl.
  - intros _ y [<- | []]. apply leb_refl.
  - intro H. destruct (leb x z) eqn:E.
    + intros y [<- | Hy]; [apply leb_refl|].
      apply (leb_trans _ z); auto.
    + intros y [<- | Hy]; [apply leb_refl|].
      apply insert_In in Hy as [-> | Hy].
      * destruct (leb_total x z); congruence.
      * apply H. now right.
Qed.

Lemma sort_head_least (l : list A) : head_least leb (sort leb l).
Proof.
  induction l as [|x l IH]; simpl; trivial.
  now apply insert_head_least.
Qed.

Lemma sort_nonempty (l : list A) : l <> [] -> sort leb l <> [].
Proof.
  destruct l as [|x l]; [congruence|]. intros _ H.
  assert (Hin : In x (sort leb (x :: l))) by (apply sort_In; now left).
  rewrite H in Hin. contradiction.
Qed.
End SortFacts.

(** *** The order of strings *)

Lemma ascii_compare_lt_trans (a b c : ascii) :
  Ascii.compare a b = Lt -> Ascii.compare b c = Lt -> Ascii.compare a c = Lt.
Proof.
  unfold Ascii.compare. rewrite !N.compare_lt_iff. apply N.lt_trans.
Qed.

Lemma string_compare_lt_trans (x y z : string) :
  String.compare x y = Lt -> String.compare y z = Lt ->
  String.compare x z = Lt.
Proof.
  revert y z. induction x as [|a x IH]; intros [|b y] [|c z]; simpl;
    try congruence.
  destruct (Ascii.compare a b) eqn:Eab; try discriminate;
    destruct (Ascii.compare b c) eqn:Ebc; try discriminate; intros Hxy Hyz.
  - apply Ascii.compare_eq_iff in Eab, Ebc. subst.
    assert (Hcc : Ascii.compare c c = Eq) by apply N.compare_refl.
    rewrite Hcc. eauto.
  - apply Ascii.compare_eq_iff in Eab. subst. now rewrite Ebc.
  - apply Ascii.compare_eq_iff in Ebc. subst. now rewrite Eab.
  - now rewrite (ascii_compare_lt_trans a b c).
Qed.

Lemma string_leb_trans (x y z : string) :
  String.leb x y = true -> String.leb y z = true -> String.leb x z = true.
Proof.
  unfold String.leb.
  destruct (String.compare x y) eqn:Exy; try discriminate;
    destruct (String.compare y z) eqn:Eyz; try discriminate; intros _ _.
  - apply String.compare_eq_iff in Exy, Eyz. subst.
    match goal with |- context [String.compare ?s ?s] =>
      destruct (String.leb_total s s) as [H|H]; exact H end.
  - apply String.compare_eq_iff in Exy. subst. now rewrite Eyz.
  - apply String.compare_eq_iff in Eyz. subst. now rewrite Exy.
  - now rewrite (string_compare_lt_trans x y z).
Qed.

Lemma sort_strings (ss : list string) :
  sort value_leb (map VStr ss) = map VStr (sort String.leb ss).
Proof.
  induction ss as [|s ss IH]; simpl; trivial.
  rewrite IH. generalize (sort String.leb ss). intro l.
  induction l as [|x l IHl]; simpl; trivial.
  destruct (String.leb s x); simpl; congruence.
Qed.

(** *** The most frequent values *)

Lemma In_present (v : value) (l : list cell) :
  In v (present l) <-> In (Some v) l.
Proof.
  unfold present. rewrite in_flat_map. split.
  - intros ([w|] & Hin & Hv); simpl in Hv; [|contradiction].
    destruct Hv as [<- | []]. exact Hin.
  - intro H. exists (Some v). split; [exact H | now left].
Qed.

Lemma In_unique (v : value) (l : list value) :
  In v (unique l) <-> In v l.
Proof.
  induction l as [|x l IH]; simpl; [tauto|].
  rewrite filter_In, IH, negb_true_iff. split.
  - intuition.
  - intros [-> | H]; [now left|].
    destruct (value_eqb x v) eqn:E.
    + left. now apply value_eqb_eq.
    + right. now split.
Qed.

Lemma occurrences_absent (v : value) (l : list value) :
  ~ In v l -> occurrences v l = 0.
Proof.
  unfold occurrences. intro H.
  destruct (filter (value_eqb v) l) as [|x t] eqn:E; trivial.
  exfalso. apply H.
  assert (Hx : In x (filter (value_eqb v) l)) by (rewrite E; now left).
  apply filter_In in Hx as [Hx Hv]. apply value_eqb_eq in Hv. now subst.
Qed.

Lemma list_max_In (l : list nat) : l <> [] -> In (list_max l) l.
Proof.
  induction l as [|a l IH]; [congruence|]. intros _. simpl.
  destruct l as [|b l].
  - left. simpl. lia.
  - destruct (Nat.max_spec a (list_max (b :: l))) as [[_ E] | [_ E]];
      rewrite E; [right; apply IH; discriminate | now left].
Qed.

Lemma In_most_frequent (l : list cell) (v : value) :
  In v (most_frequent l) <-> is_mode l v.
Proof.
  unfold most_frequent, is_mode, count_of.
  set (vs := present l).
  set (counts := map (fun k => occurrences k vs) (unique vs)).
  rewrite filter_In, In_unique, Nat.eqb_eq. fold vs.
  rewrite <- (In_present v l). fold vs.
  assert (Hle : forall w, In w vs -> occurrences w vs <= list_max counts).
  { intros w Hw.
    assert (H : Forall (fun k => k <= list_max counts) counts)
      by now apply list_max_le.
    rewrite Forall_forall in H. apply H. unfold counts.
    apply in_map_iff. exists w. split; trivial. now apply In_unique. }
  split.
  - intros [Hin E]. split; trivial. intro w. rewrite E.
    destruct (in_dec (fun a b => Bool.reflect_dec _ _
                (iff_reflect _ _ (iff_sym (value_eqb_eq a b)))) w vs)
      as [Hw | Hw].
    + now apply Hle.
    + rewrite occurrences_absent by assumption. lia.
  - intros [Hin Hmax]. split; trivial.
    apply Nat.le_antisymm; [now apply Hle|].
    apply list_max_le. unfold counts. apply Forall_map, Forall_forall.
    intros w _. apply Hmax.
Qed.

Lemma most_frequent_nonempty (l : list cell) :
  has_value l -> most_frequent l <> [].
Proof.
  intros [v Hv] H.
  apply In_present in Hv. unfold most_frequent in H.
  set (vs := present l) in *.
  set (counts := map (fun k => occurrences k vs) (unique vs)) in *.
  assert (Hne : counts <> []).
  { unfold counts. apply In_unique in Hv.
    destruct (unique vs); [contradiction | discriminate]. }
  apply list_max_In in Hne. unfold counts at 2 in Hne.
  apply in_map_iff in Hne as (k & Hk & Hin).
  assert (Hf : In k (filter (fun k => occurrences k vs =? list_max counts)
                            (unique vs))).
  { apply filter_In. split; trivial. now apply Nat.eqb_eq. }
  rewrite H in Hf. contradiction.
Qed.

Lemma text_modes (l : list cell) :
  forallb text_cell l = true ->
  exists ss, most_frequent l = map VStr ss.
Proof.
  intro Ht.
  assert (H : Forall (fun v => exists s, v = VStr s) (most_frequent l)).
  { apply Forall_forall. intros v Hv.
    apply In_most_frequent in Hv as [Hv _].
    rewrite forallb_forall in Ht. specialize (Ht _ Hv).
    destruct v; try discriminate. eauto. }
  induction (most_frequent l) as [|v ms IH].
  - exists []. reflexivity.
  - inversion H as [|? ? [s ->] Hms]; subst.
    destruct (IH Hms) as [ss ->]. exists (s :: ss). reflexivity.
Qed.

Lemma sortable_strings (ss : list string) : sortable (map VStr ss) = true.
Proof.
  destruct ss as [|s ss]; simpl; trivial.
  apply forallb_forall. intros v Hv.
  apply in_map_iff in Hv as (x & <- & _). reflexivity.
Qed.

(** In a text column that holds a value, [mode(...).iloc[0]] is the
    least, in the order of strings, of the most frequent values. *)
Lemma mode_of_text (l : list cell) :
  forallb text_cell l = true -> has_value l ->
  exists m rest,
    mode l = VStr m :: rest
    /\ is_mode l (VStr m)
    /\ forall m', is_mode l (VStr m') -> String.leb m m' = true.
Proof.
  intros Ht Hv. unfold mode.
  destruct (text_modes l Ht) as [ss Hss].
  pose proof (most_frequent_nonempty l Hv) as Hne.
  rewrite Hss, sortable_strings, sort_strings.
  assert (Hss' : ss <> []) by (intro E; apply Hne; now rewrite Hss, E).
  pose proof (sort_nonempty _ String.leb ss Hss') as Hs.
  pose proof (sort_head_least _ String.leb String.leb_total
                string_leb_trans ss) as Hleast.
  destruct (sort String.leb ss) as [|m rest] eqn:E; [congruence|].
  exists m, (map VStr rest). split; [reflexivity|].
  assert (Hin : forall s, In s ss <-> is_mode l (VStr s)).
  { intro s. rewrite <- In_most_frequent, Hss. split.
    - apply in_map.
    - intro H. apply in_map_iff in H as (x & Hx & H). congruence. }
  split.
  - apply Hin. apply (sort_In _ String.leb). rewrite E. now left.
  - intros m' Hm'. apply Hleast.
    rewrite <- E. apply sort_In. now apply Hin.
Qed.

Lemma fillna_complete (v : value) (l : list cell) :
  count_null (fillna (Some v) l) = 0.
Proof.
  unfold count_null, fillna. induction l as [|[w|] l IH]; simpl; trivial.
Qed.

Lemma ffill_from_no_null (last : cell) (l : list cell) :
  count_null l = 0 -> ffill_from last l = l.
Proof.
  unfold count_null. revert last.
  induction l as [|[v|] l IH]; intros last H; simpl in *; trivial.
  - now rewrite IH.
  - discriminate.
Qed.

(** C2, as amended: in stage 3 every missing cell of a text column that
    holds a value is replaced by a most frequent value of the column, the
    other cells are left as they are, and among several most frequent
    values the replacement is the least one in the order of strings (the
    first of the sorted modes), not the one met first in the column. *)
Theorem mode_imputation (df : DataFrame) (i : nat) (c : column) :
  nth_error (columns df) i = Some c ->
  kind c = DObject ->
  forallb text_cell (values c) = true ->
  has_value (values c) ->
  exists m,
    nth_error (columns (impute df)) i
    = Some (mkColumn (label c) DObject (fillna (Some (VStr m)) (values c)))
    /\ is_mode (values c) (VStr m)
    /\ (forall m', is_mode (values c) (VStr m') -> String.leb m m' = true).
Proof.
  intros Hi Hk Ht Hv.
  destruct (mode_of_text (values c) Ht Hv) as (m & rest & Hmode & Hm & Hleast).
  exists m. split; [|split; assumption].
  rewrite columns_impute, nth_error_map, Hi. simpl. f_equal.
  unfold impute_column, is_numeric, is_object. rewrite Hk.
  unfold fill_mode. rewrite Hmode.
  assert (Hlen : negb (length (values c) =? 0) = true).
  { destruct Hv as [v Hv]. now destruct (values c). }
  rewrite Hlen. unfold map_values. simpl. rewrite Hk. f_equal.
  unfold ffill. rewrite ffill_from_no_null by apply fillna_complete.
  apply bfill_no_null, fillna_complete.
Qed.

Lemma mode_imputation_witness :
  exists m,
    nth_error (columns (impute tied)) 0
    = Some (mkColumn "c" DObject [txt "b"; txt "a"; txt m])
    /\ String.leb m "b" = true.
Proof.
  assert (Hv : has_value [txt "b"; txt "a"; None])
    by (exists (VStr "b"); now left).
  destruct (mode_imputation tied 0
              (mkColumn "c" DObject [txt "b"; txt "a"; None])
              eq_refl eq_refl eq_refl Hv) as (m & Hc & Hm & Hleast).
  exists m. split; [exact Hc|].
  apply Hleast. split; [now left|].
  intros [q|s|t]; [vm_compute; lia | | vm_compute; lia].
  unfold count_of, occurrences. simpl.
  destruct (String.eqb_spec s "b") as [-> | Hb]; [simpl; lia|].
  destruct (String.eqb s "a"); simpl; lia.
Defined.

(** C2 as stated fails: in [tied] the values ["b"] and ["a"] share the
    maximal count 1 and ["b"] comes first in row order, yet the missing
    cell is filled with ["a"]. *)
Lemma mode_tie_counterexample :
  well_formed tied = true
  /\ count_of (VStr "b") (values (mkColumn "c" DObject
                                    [txt "b"; txt "a"; None])) = 1
  /\ count_of (VStr "a") (values (mkColumn "c" DObject
                                    [txt "b"; txt "a"; None])) = 1
  /\ exists df' data,
       preprocess_excel tied = Success df' data
       /\ map values (columns df') = [[txt "b"; txt "a"; txt "a"]]
       /\ map values (columns df') <> [[txt "b"; txt "a"; txt "b"]].
Proof.
  split; [reflexivity|]. split; [reflexivity|]. split; [reflexivity|].
  eexists. eexists. split; [reflexivity|]. split; [reflexivity|].
  discriminate.
Qed.

(** * Further properties of [preprocess_excel] *)

(** ** The statistics add up *)

Lemma filter_split_length (A : Type) (p : A -> bool) (l : list A) :
  length (filter p l) + length (filter (fun x => negb (p x)) l) = length l.
Proof.
  induction l as [|x l IH]; simpl; trivial.
  destruct (p x); simpl; lia.
Qed.

Lemma nrows_cleaned (df : DataFrame) :
  nrows (rename_columns (imputed df))
  = nrows (drop_duplicates (dropna_all_columns df)).
Proof.
  change (nrows (rename_columns (imputed df))) with (nrows (imputed df)).
  unfold imputed. now rewrite nrows_impute, nrows_reset_index.
Qed.

(** Every accepted table keeps at least its first row, and the rows that
    are reported as removed together with the rows of the cleaned table
    are the rows of the upload. *)
Theorem rows_accounting (df df' : DataFrame) (data : report) :
  preprocess_excel df = Success df' data ->
  original_rows data = nrows df
  /\ processed_rows data = nrows df'
  /\ processed_rows data + duplicates_removed data = original_rows data
  /\ 1 <= processed_rows data
  /\ duplicates_removed data < original_rows data.
Proof.
  intro H. apply preprocess_success in H.
  destruct H as (He & -> & Ho & _ & Hp & _ & _ & _ & Hd & _).
  rewrite Hp, Hd, Ho, nrows_cleaned.
  pose proof (nrows_drop_duplicates (dropna_all_columns df)) as Hsum.
  change (nrows (dropna_all_columns df)) with (nrows df) in Hsum.
  assert (Hn : nrows df <> 0).
  { unfold empty in He. apply orb_false_iff in He as [Hr _].
    now apply Nat.eqb_neq. }
  pose proof (kept_row (dropna_all_columns df) Hn) as Hk.
  repeat split; lia.
Qed.

Lemma rows_accounting_witness :
  exists df' data,
    preprocess_excel three_rows = Success df' data
    /\ processed_rows data + duplicates_removed data = 3.
Proof.
  destruct (preprocess_excel three_rows) as [e m | df' data] eqn:E.
  - vm_compute in E. discriminate E.
  - exists df', data. split; [reflexivity|].
    destruct (rows_accounting three_rows df' data E) as (Ho & _ & Hs & _).
    rewrite Hs, Ho. reflexivity.
Defined.

(** The columns reported as removed are the columns without any value, and
    together with the columns of the cleaned table they are the columns of
    the upload. *)
Theorem columns_accounting (df df' : DataFrame) (data : report) :
  preprocess_excel df = Success df' data ->
  original_columns data = ncols df
  /\ processed_columns data = ncols df'
  /\ null_columns_removed data = length (filter all_null (columns df))
  /\ processed_columns data + null_columns_removed data
     = original_columns data.
Proof.
  intro H. apply preprocess_success in H.
  destruct H as (_ & -> & _ & Ho & _ & Hp & _ & _ & _ & Hn).
  rewrite Hp, Hn, Ho, ncols_imputed.
  unfold ncols, dropna_all_columns. simpl.
  pose proof (filter_split_length _ all_null (columns df)) as Hs.
  repeat split; lia.
Qed.

Lemma columns_accounting_witness :
  exists df' data,
    preprocess_excel scenario = Success df' data
    /\ null_columns_removed data = 1
    /\ processed_columns data = 2.
Proof.
  destruct (preprocess_excel scenario) as [e m | df' data] eqn:E.
  - vm_compute in E. discriminate E.
  - exists df', data. split; [reflexivity|].
    destruct (columns_accounting scenario df' data E)
      as (Ho & _ & Hn & Hs).
    rewrite Hn in *. rewrite Ho in Hs.
    change (length (filter all_null (columns scenario))) with 1 in *.
    change (ncols scenario) with 3 in Hs. split; [reflexivity | lia].
Defined.

(** ** Shape of the cleaned table *)

(** The cells stage 3 leaves in a column, by dtype. *)
Lemma values_impute_column (c : column) :
  values (impute_column c)
  = bfill (ffill
      match kind c with
      | DNumber => fillna (option_map VNum (median (values c))) (values c)
      | DObject => values (fill_mode c)
      | DOther => values c
      end).
Proof.
  unfold impute_column, is_numeric, is_object, fill_median, map_values.
  simpl. destruct (kind c) eqn:E; simpl; rewrite ?E; reflexivity.
Qed.

(** The cleaned table of a well-formed upload is well shaped: its index
    runs from zero to the number of rows reported, and every column has
    one cell per row. *)
Theorem cleaned_frame_well_shaped (df df' : DataFrame) (data : report) :
  well_formed df = true ->
  preprocess_excel df = Success df' data ->
  index df' = seq 0 (processed_rows data)
  /\ nrows df' = processed_rows data
  /\ Forall (fun c => length (values c) = processed_rows data) (columns df').
Proof.
  intros Hwf H. apply preprocess_success in H.
  destruct H as (_ & -> & _ & _ & Hp & _).
  rewrite Hp. split; [|split].
  - change (index (rename_columns (imputed df))) with (index (imputed df)).
    rewrite nrows_cleaned. unfold imputed. now rewrite index_impute.
  - reflexivity.
  - exact (imputed_aligned df (well_formed_aligned df Hwf)).
Qed.

Lemma cleaned_frame_well_shaped_witness :
  well_formed scenario = true
  /\ exists df' data,
       preprocess_excel scenario = Success df' data
       /\ index df' = [0; 1; 2].
Proof.
  split; [reflexivity|].
  destruct (preprocess_excel scenario) as [e m | df' data] eqn:E.
  - vm_compute in E. discriminate E.
  - exists df', data. split; [reflexivity|].
    destruct (cleaned_frame_well_shaped scenario df' data eq_refl E)
      as (Hi & _).
    rewrite Hi. apply preprocess_success in E.
    destruct E as (_ & -> & _ & _ & -> & _). reflexivity.
Defined.

(** ** What stage 3 leaves alone *)

Lemma fillna_nth_value (x : cell) (l : list cell) (k : nat) (v : value) :
  nth_error l k = Some (Some v) ->
  nth_error (fillna x l) k = Some (Some v).
Proof.
  intro H. unfold fillna, cell in *. now rewrite nth_error_map, H.
Qed.

Lemma ffill_from_nth_value (last : cell) (l : list cell) (k : nat)
    (v : value) :
  nth_error l k = Some (Some v) ->
  nth_error (ffill_from last l) k = Some (Some v).
Proof.
  revert last k. induction l as [|[w|] l IH]; intros last [|k] H;
    simpl in *; try discriminate; auto.
Qed.

Lemma bfill_nth_value (l : list cell) (k : nat) (v : value) :
  nth_error l k = Some (Some v) ->
  nth_error (bfill l) k = Some (Some v).
Proof.
  revert k. induction l as [|[w|] l IH]; intros [|k] H;
    simpl in *; try discriminate; auto.
Qed.

Lemma impute_column_nth_value (c : column) (k : nat) (v : value) :
  nth_error (values c) k = Some (Some v) ->
  nth_error (values (impute_column c)) k = Some (Some v).
Proof.
  intro H. rewrite values_impute_column.
  apply bfill_nth_value, ffill_from_nth_value.
  destruct (kind c); trivial.
  - now apply fillna_nth_value.
  - unfold fill_mode. destruct (negb (length (values c) =? 0)); trivial.
    destruct (mode (values c)); trivial. now apply fillna_nth_value.
Qed.

(** Stage 3 only writes into missing cells: a cell that holds a value
    before imputation holds the same value afterwards, in the column of
    the same place and name and in the same row; no column is added or
    removed. *)
Theorem imputation_keeps_present_cells
    (df : DataFrame) (i k : nat) (c : column) (v : value) :
  nth_error (columns df) i = Some c ->
  nth_error (values c) k = Some (Some v) ->
  ncols (impute df) = ncols df
  /\ exists c',
       nth_error (columns (impute df)) i = Some c'
       /\ label c' = label c
       /\ nth_error (values c') k = Some (Some v).
Proof.
  intros Hi Hk. split.
  - unfold ncols. now rewrite columns_impute, length_map.
  - exists (impute_column c).
    rewrite columns_impute, nth_error_map, Hi.
    repeat split.
    + apply label_impute_column.
    + now apply impute_column_nth_value.
Qed.

Lemma imputation_keeps_present_cells_witness :
  exists c',
    nth_error (columns (impute scenario)) 0 = Some c'
    /\ nth_error (values c') 2 = Some (num 3).
Proof.
  destruct (imputation_keeps_present_cells scenario 0 2
              (mkColumn "A" DNumber [num 1; None; num 3])
              (VNum (Q2Qc (inject_Z 3))) eq_refl eq_refl)
    as (_ & c' & Hc & _ & Hv).
  exists c'. split; assumption.
Defined.

Lemma fillna_no_null (x : cell) (l : list cell) :
  count_null l = 0 -> fillna x l = l.
Proof.
  unfold count_null, fillna.
  induction l as [|[v|] l IH]; simpl; trivial.
  - intro H. now rewrite IH.
  - discriminate.
Qed.

Lemma impute_column_no_null (c : column) :
  count_null (values c) = 0 -> values (impute_column c) = values c.
Proof.
  intro H. rewrite values_impute_column.
  assert (E : match kind c with
              | DNumber => fillna (option_map VNum (median (values c)))
                             (values c)
              | DObject => values (fill_mode c)
              | DOther => values c
              end = values c).
  { destruct (kind c); trivial.
    - now apply fillna_no_null.
    - unfold fill_mode. destruct (negb (length (values c) =? 0)); trivial.
      destruct (mode (values c)); trivial. now apply fillna_no_null. }
  rewrite E. unfold ffill. rewrite ffill_from_no_null by assumption.
  now apply bfill_no_null.
Qed.

Lemma count_null_select (mask : list bool) (l : list cell) :
  count_null l = 0 -> count_null (select mask l) = 0.
Proof.
  unfold count_null. intro H.
  destruct (filter isnull (select mask l)) as [|x t] eqn:E; trivial.
  assert (Hx : In x (filter isnull (select mask l))) by (rewrite E; now left).
  apply filter_In in Hx as [Hx Hn]. apply select_In in Hx.
  assert (Hf : In x (filter isnull l)) by (apply filter_In; auto).
  destruct (filter isnull l); [contradiction | discriminate].
Qed.

Lemma list_sum_zero_inv (l : list nat) :
  list_sum l = 0 -> Forall (fun n => n = 0) l.
Proof.
  induction l as [|x l IH]; simpl; constructor; [lia | apply IH; lia].
Qed.

Lemma drop_duplicates_no_null (df : DataFrame) :
  isnull_sum_sum df = 0 -> isnull_sum_sum (drop_duplicates df) = 0.
Proof.
  unfold isnull_sum_sum. intro H. apply list_sum_zero_inv in H.
  apply list_sum_zero. apply Forall_map.
  rewrite Forall_map in H.
  unfold drop_duplicates. destruct (empty df); trivial.
  simpl. apply Forall_map. eapply Forall_impl; [|exact H].
  intros c Hc. simpl. now apply count_null_select.
Qed.

(** A well-formed upload without any missing cell is only deduplicated and
    renamed: no column is removed, and the cells of the cleaned table are
    those of [drop_duplicates] on the upload. *)
Theorem complete_table_only_deduplicated
    (df df' : DataFrame) (data : report) :
  well_formed df = true ->
  isnull_sum_sum df = 0 ->
  preprocess_excel df = Success df' data ->
  missing_values_before data = 0
  /\ null_columns_removed data = 0
  /\ map values (columns df') = map values (columns (drop_duplicates df))
  /\ rows df' = rows (drop_duplicates df).
Proof.
  intros Hwf Hz H. apply preprocess_success in H.
  destruct H as (He & -> & _ & _ & _ & _ & Hb & _ & _ & Hn).
  pose proof (well_formed_aligned df Hwf) as Hal.
  assert (Hr : nrows df <> 0).
  { unfold empty in He. apply orb_false_iff in He as [Hr _].
    now apply Nat.eqb_neq. }
  pose proof (dropna_complete_frame df Hal Hr Hz) as Hd.
  assert (Hv : map values (columns (rename_columns (imputed df)))
               = map values (columns (drop_duplicates df))).
  { rewrite columns_rename, map_map.
    rewrite (map_ext _ values (fun c => eq_refl)). unfold imputed.
    rewrite Hd, columns_impute, map_map.
    change (columns (reset_index ?d)) with (columns d).
    apply map_ext_in. intros c Hc. apply impute_column_no_null.
    pose proof (drop_duplicates_no_null df Hz) as Hz'.
    unfold isnull_sum_sum in Hz'. apply list_sum_zero_inv in Hz'.
    rewrite Forall_map, Forall_forall in Hz'. auto. }
  split; [congruence|]. split; [rewrite Hn, Hd; lia|]. split; [exact Hv|].
  unfold rows. rewrite Hv, nrows_cleaned, Hd. reflexivity.
Qed.

Lemma complete_table_only_deduplicated_witness :
  well_formed three_rows = true
  /\ isnull_sum_sum three_rows = 0
  /\ exists df' data,
       preprocess_excel three_rows = Success df' data
       /\ rows df' = rows (drop_duplicates three_rows).
Proof.
  split; [reflexivity|]. split; [reflexivity|].
  destruct (preprocess_excel three_rows) as [e m | df' data] eqn:E.
  - vm_compute in E. discriminate E.
  - exists df', data. split; [reflexivity|].
    now destruct (complete_table_only_deduplicated three_rows df' data
                    eq_refl eq_refl E) as (_ & _ & _ & Hr).
Defined.

(** ** Median imputation *)

Import MoreNotions.

Section SortedFacts.
Variable A : Type.
Variable leb : A -> A -> bool.
Hypothesis leb_total : forall x y, leb x y = true \/ leb y x = true.
Hypothesis leb_trans :
  forall x y z, leb x y = true -> leb y z = true -> leb x z = true.

Let below (x y : A) : Prop := leb x y = true.

Lemma insert_sorted (x : A) (l : list A) :
  StronglySorted below l -> StronglySorted below (insert leb x l).
Proof.
  induction 1 as [|y l Hl IH Hy]; simpl.
  - repeat constructor.
  - destruct (leb x y) eqn:E.
    + constructor; [now constructor|].
      constructor; trivial.
      eapply Forall_impl; [|exact Hy]. intros z Hz.
      now apply (leb_trans x y z).
    + constructor; trivial. apply Forall_forall. intros z Hz.
      apply insert_In in Hz as [-> | Hz].
      * destruct (leb_total x y); [congruence | assumption].
      * rewrite Forall_forall in Hy. now apply Hy.
Qed.

Lemma sort_sorted (l : list A) : StronglySorted below (sort leb l).
Proof.
  induction l as [|x l IH]; simpl; [constructor | now apply insert_sorted].
Qed.

Lemma insert_filter_length (p : A -> bool) (x : A) (l : list A) :
  length (filter p (insert leb x l)) = length (filter p (x :: l)).
Proof.
  induction l as [|y l IH]; trivial.
  simpl insert. destruct (leb x y); trivial.
  simpl in *. destruct (p y), (p x); simpl in *; lia.
Qed.

Lemma sort_filter_length (p : A -> bool) (l : list A) :
  length (filter p (sort leb l)) = length (filter p l).
Proof.
  induction l as [|x l IH]; trivial.
  simpl sort. rewrite insert_filter_length. simpl.
  destruct (p x); simpl; now rewrite IH.
Qed.

Lemma sort_length (l : list A) : length (sort leb l) = length l.
Proof.
  pose proof (sort_filter_length (fun _ => true) l) as H.
  now rewrite !forallb_filter_id in H by (apply forallb_forall; trivial).
Qed.

(** In a sorted list the element at position [k] has at least [k + 1]
    elements at most as large, and at least [length - k] elements at
    least as large. *)
Lemma sorted_rank (s : list A) (k : nat) (a : A) :
  StronglySorted below s -> nth_error s k = Some a ->
  S k <= length (filter (fun x => leb x a) s)
  /\ length s - k <= length (filter (fun x => leb a x) s).
Proof.
  intro Hs. revert k. induction Hs as [|x t Ht IH Hx]; intros [|k] Hk;
    simpl in Hk; try discriminate.
  - injection Hk as ->. simpl.
    assert (Hrefl : leb a a = true) by (now destruct (leb_total a a)).
    rewrite Hrefl. simpl. split; [lia|].
    rewrite forallb_filter_id; [lia|].
    apply forallb_forall. rewrite Forall_forall in Hx. exact Hx.
  - destruct (IH k Hk) as [Hlo Hhi].
    assert (Hxa : leb x a = true).
    { rewrite Forall_forall in Hx. apply Hx.
      eapply nth_error_In; eauto. }
    simpl. rewrite Hxa. simpl. split; [lia|].
    destruct (leb a x); simpl; lia.
Qed.
End SortedFacts.

Lemma Qc_leb_total (x y : Qc) : Qc_leb x y = true \/ Qc_leb y x = true.
Proof.
  unfold Qc_leb. rewrite !Qle_bool_iff.
  destruct (Qlt_le_dec x y) as [H|H]; [left; now apply Qlt_le_weak | now right].
Qed.

Lemma Qc_leb_trans (x y z : Qc) :
  Qc_leb x y = true -> Qc_leb y z = true -> Qc_leb x z = true.
Proof.
  unfold Qc_leb. rewrite !Qle_bool_iff. apply Qle_trans.
Qed.

Lemma midpoint_value (a b : Qc) :
  (this ((a + b) / two)%Qc == (this a + this b) * (1 # 2))%Q.
Proof.
  unfold Qcdiv, Qcmult, Qcplus, Qcinv, two, Q2Qc. cbn [this].
  repeat rewrite Qred_correct. reflexivity.
Qed.

Lemma midpoint_between (a b : Qc) :
  Qc_leb a b = true ->
  Qc_leb a ((a + b) / two)%Qc = true /\ Qc_leb ((a + b) / two)%Qc b = true.
Proof.
  unfold Qc_leb. rewrite !Qle_bool_iff, midpoint_value.
  intro H. split; lra.
Qed.

Lemma filter_length_le (A : Type) (p q : A -> bool) (l : list A) :
  (forall x, p x = true -> q x = true) ->
  length (filter p l) <= length (filter q l).
Proof.
  intro H. induction l as [|x l IH]; simpl; trivial.
  destruct (p x) eqn:E.
  - rewrite (H x E). simpl. lia.
  - destruct (q x); simpl; lia.
Qed.

Lemma half_bounds (n : nat) :
  (Nat.odd n = true -> n <= 2 * S (n / 2) /\ n <= 2 * (n - n / 2))
  /\ (Nat.odd n = false -> n <> 0 ->
        n <= 2 * S (n / 2 - 1) /\ n <= 2 * (n - n / 2) /\ 1 <= n / 2).
Proof.
  pose proof (Nat.div_mod_eq n 2) as Hd.
  pose proof (Nat.mod_upper_bound n 2) as Hm.
  split.
  - intros _. lia.
  - intros Ho Hn. unfold Nat.odd in Ho. apply negb_false_iff in Ho.
    apply Nat.even_spec in Ho. destruct Ho as [k ->].
    replace (2 * k / 2) with k
      by (rewrite Nat.mul_comm, Nat.div_mul; lia). lia.
Qed.

(** The median splits the numbers of a column: at least half of them are
    at most the median and at least half of them are at least the
    median. *)
Lemma median_splits (l : list cell) (m : Qc) :
  median l = Some m ->
  length (numbers l) <= 2 * at_most m l
  /\ length (numbers l) <= 2 * at_least m l.
Proof.
  unfold median, at_most, at_least.
  set (s := sort Qc_leb (numbers l)).
  pose proof (sort_sorted _ Qc_leb Qc_leb_total Qc_leb_trans (numbers l))
    as Hs. fold s in Hs.
  rewrite <- !(sort_filter_length _ Qc_leb _ (numbers l)).
  rewrite <- (sort_length _ Qc_leb (numbers l)). fold s.
  set (n := length s).
  destruct (half_bounds n) as [Hodd Heven].
  destruct (n =? 0) eqn:En; [discriminate|].
  apply Nat.eqb_neq in En.
  destruct (Nat.odd n) eqn:Eo.
  - intro Hk.
    destruct (sorted_rank _ Qc_leb Qc_leb_total s _ m Hs Hk)
      as [Hlo Hhi]. fold n in Hhi.
    specialize (Hodd eq_refl). lia.
  - destruct (nth_error s (n / 2 - 1)) as [a|] eqn:Ea; [|discriminate].
    destruct (nth_error s (n / 2)) as [b|] eqn:Eb; [|discriminate].
    intro Hm. injection Hm as <-.
    destruct (sorted_rank _ Qc_leb Qc_leb_total s _ a Hs Ea)
      as [Hlo _].
    destruct (sorted_rank _ Qc_leb Qc_leb_total s _ b Hs Eb)
      as [_ Hhi]. fold n in Hhi.
    assert (Hab : Qc_leb a b = true).
    { destruct (sorted_rank _ Qc_leb Qc_leb_total s _ a Hs Ea)
        as [_ Ha].
      assert (Hin : In b (skipn (n / 2 - 1) s)).
      { destruct (Heven eq_refl En) as (_ & _ & H1).
        assert (Hidx : n / 2 = (n / 2 - 1) + 1) by lia.
        rewrite Hidx in Eb. rewrite <- nth_error_skipn in Eb.
        eapply nth_error_In; eauto. }
      clear Ha. revert Hin Ea. generalize (n / 2 - 1). clear -Hs.
      induction Hs as [|x t Ht IH Hx]; intros [|k] Hin Ea;
        simpl in *; try discriminate; try contradiction.
      - injection Ea as ->. destruct Hin as [-> | Hin].
        + now destruct (Qc_leb_total b b).
        + rewrite Forall_forall in Hx. now apply Hx.
      - eauto. }
    destruct (midpoint_between a b Hab) as [Hl Hr].
    destruct (Heven eq_refl En) as (H1 & H2 & _).
    pose proof (filter_length_le _ (fun x => Qc_leb x a)
                  (fun x => Qc_leb x ((a + b) / two)%Qc) s) as Hle1.
    pose proof (filter_length_le _ (fun x => Qc_leb b x)
                  (fun x => Qc_leb ((a + b) / two)%Qc x) s) as Hle2.
    assert (H3 : length (filter (fun x => Qc_leb x a) s)
                 <= length (filter
                      (fun x => Qc_leb x ((a + b) / two)%Qc) s)).
    { apply Hle1. intros x Hx. now apply (Qc_leb_trans x a). }
    assert (H4 : length (filter (fun x => Qc_leb b x) s)
                 <= length (filter
                      (fun x => Qc_leb ((a + b) / two)%Qc x) s)).
    { apply Hle2. intros x Hx. now apply (Qc_leb_trans _ b x). }
    lia.
Qed.

Lemma median_defined (l : list cell) :
  numbers l <> [] -> exists m, median l = Some m.
Proof.
  intro Hne. unfold median.
  set (s := sort Qc_leb (numbers l)).
  assert (Hn : length s <> 0).
  { unfold s. rewrite sort_length. now destruct (numbers l). }
  destruct (half_bounds (length s)) as [_ Heven].
  apply Nat.eqb_neq in Hn. rewrite Hn. apply Nat.eqb_neq in Hn.
  assert (Hhalf : length s / 2 < length s)
    by (apply Nat.div_lt; lia).
  destruct (Nat.odd (length s)) eqn:Eo.
  - destruct (nth_error s (length s / 2)) eqn:E; eauto.
    apply nth_error_None in E. lia.
  - destruct (Heven eq_refl Hn) as (_ & _ & H1).
    destruct (nth_error s (length s / 2 - 1)) eqn:Ea.
    + destruct (nth_error s (length s / 2)) eqn:Eb; eauto.
      apply nth_error_None in Eb. lia.
    + apply nth_error_None in Ea. lia.
Qed.

Lemma In_numbers (q : Qc) (l : list cell) :
  In q (numbers l) -> In (Some (VNum q)) l.
Proof.
  unfold numbers. intro H. apply in_flat_map in H as (x & Hx & Hq).
  destruct x as [[r| |]|]; simpl in Hq; try contradiction.
  destruct Hq as [<- | []]. exact Hx.
Qed.

(** The median of an odd number of values is one of them. *)
Lemma median_odd_In (l : list cell) (m : Qc) :
  Nat.odd (length (numbers l)) = true ->
  median l = Some m -> In (Some (VNum m)) l.
Proof.
  unfold median. rewrite (sort_length _ Qc_leb (numbers l)).
  intros Ho. rewrite Ho.
  destruct (length (numbers l) =? 0); [discriminate|].
  intro Hm. apply nth_error_In in Hm.
  apply In_numbers. exact (proj1 (sort_In _ Qc_leb m (numbers l)) Hm).
Qed.

(** In stage 3 every missing cell of a numeric column with an odd number
    of values is replaced by the median of the column and the other cells
    stay as they are; the median is then one of the values of the column,
    at least half of the values are at most the median and at least half
    are at least the median. *)
Theorem median_imputation (df : DataFrame) (i : nat) (c : column) :
  nth_error (columns df) i = Some c ->
  kind c = DNumber ->
  forallb number_cell (values c) = true ->
  Nat.odd (length (numbers (values c))) = true ->
  exists m c',
    median (values c) = Some m
    /\ In (Some (VNum m)) (values c)
    /\ nth_error (columns (impute df)) i = Some c'
    /\ label c' = label c
    /\ values c' = fillna (Some (VNum m)) (values c)
    /\ length (numbers (values c)) <= 2 * at_most m (values c)
    /\ length (numbers (values c)) <= 2 * at_least m (values c).
Proof.
  intros Hi Hk Ht Ho.
  assert (Hne : numbers (values c) <> []).
  { intro E. rewrite E in Ho. discriminate Ho. }
  destruct (median_defined (values c) Hne) as [m Hm].
  exists m, (impute_column c). split; [exact Hm|].
  split; [now apply median_odd_In|].
  split; [rewrite columns_impute, nth_error_map, Hi; reflexivity|].
  split; [apply label_impute_column|].
  split; [|now apply median_splits].
  rewrite values_impute_column, Hk, Hm. unfold option_map, ffill.
  rewrite ffill_from_no_null by apply fillna_complete.
  apply bfill_no_null, fillna_complete.
Qed.

Lemma median_imputation_witness :
  exists c',
    nth_error (columns (impute MoreNotions.prices)) 0 = Some c'
    /\ values c' = [num 5; num 3; num 1; num 3].
Proof.
  destruct (median_imputation MoreNotions.prices 0
              (mkColumn "price" DNumber [num 5; None; num 1; num 3])
              eq_refl eq_refl eq_refl eq_refl)
    as (m & c' & Hm & _ & Hc & _ & Hv & _).
  exists c'. split; [exact Hc|]. rewrite Hv.
  vm_compute in Hm. injection Hm as <-. reflexivity.
Defined.

(** ** Forward and backward fill *)

Lemma ffill_from_run (l : list cell) (v : value) (k : nat) :
  (forall t, t <= k -> nth_error l t = Some None) ->
  nth_error (ffill_from (Some v) l) k = Some (Some v).
Proof.
  revert k. induction l as [|c l IH]; intros k H.
  - specialize (H 0 (Nat.le_0_l k)). discriminate H.
  - pose proof (H 0 (Nat.le_0_l k)) as H0. simpl in H0.
    injection H0 as ->. simpl. destruct k as [|k]; trivial.
    simpl. apply IH. intros t Ht. apply (H (S t)). lia.
Qed.

Lemma ffill_from_forward (l : list cell) (last : cell) (j k : nat)
    (v : value) :
  j <= k -> nth_error l j = Some (Some v) ->
  (forall t, j < t <= k -> nth_error l t = Some None) ->
  nth_error (ffill_from last l) k = Some (Some v).
Proof.
  revert last j k. induction l as [|c l IH]; intros last j k Hjk Hj Hgap.
  - destruct j; discriminate.
  - destruct j as [|j].
    + simpl in Hj. injection Hj as ->. simpl.
      destruct k as [|k]; trivial. simpl. apply ffill_from_run.
      intros t Ht. apply (Hgap (S t)). lia.
    + destruct k as [|k]; [lia|].
      assert (Hk : nth_error (ffill_from
                                match c with Some w => Some w | None => last end
                                l) k = Some (Some v)).
      { apply (IH _ j k); [lia | exact Hj |].
        intros t Ht. apply (Hgap (S t)). lia. }
      destruct c; exact Hk.
Qed.

Lemma ffill_from_leading (l : list cell) (j : nat) (v : value) :
  (forall t, t < j -> nth_error l t = Some None) ->
  nth_error l j = Some (Some v) ->
  (forall t, t < j -> nth_error (ffill_from None l) t = Some None)
  /\ nth_error (ffill_from None l) j = Some (Some v).
Proof.
  revert j. induction l as [|c l IH]; intros j Hlead Hj.
  - destruct j; discriminate.
  - destruct j as [|j].
    + simpl in Hj. injection Hj as ->. simpl. split; [lia | trivial].
    + pose proof (Hlead 0 (Nat.lt_0_succ j)) as H0. simpl in H0.
      injection H0 as ->. simpl.
      destruct (IH j) as [H1 H2].
      * intros t Ht. apply (Hlead (S t)). lia.
      * exact Hj.
      * split; trivial. intros [|t] Ht; trivial. apply H1. lia.
Qed.

Lemma bfill_backward (l : list cell) (j k : nat) (v : value) :
  k <= j ->
  (forall t, t < j -> nth_error l t = Some None) ->
  nth_error l j = Some (Some v) ->
  nth_error (bfill l) k = Some (Some v).
Proof.
  revert j k. induction l as [|c l IH]; intros j k Hkj Hlead Hj.
  - destruct j; discriminate.
  - destruct j as [|j].
    + simpl in Hj. injection Hj as ->. assert (k = 0) as -> by lia.
      reflexivity.
    + pose proof (Hlead 0 (Nat.lt_0_succ j)) as H0. simpl in H0.
      injection H0 as ->.
      assert (Hrec : forall k', k' <= j ->
                nth_error (bfill l) k' = Some (Some v)).
      { intros k' Hk'. apply (IH j k'); trivial.
        intros t Ht. apply (Hlead (S t)). lia. }
      simpl. destruct k as [|k].
      * pose proof (Hrec 0 (Nat.le_0_l j)) as H0.
        destruct (bfill l); [discriminate | exact H0].
      * simpl. apply Hrec. lia.
Qed.

(** A column that is neither numeric nor text (a date column) is filled
    from its neighbours only: a missing cell takes the nearest value
    above it, and the missing cells above the first value take that first
    value. *)
Theorem neighbour_fill (df : DataFrame) (i : nat) (c : column) :
  nth_error (columns df) i = Some c ->
  kind c = DOther ->
  exists c',
    nth_error (columns (impute df)) i = Some c'
    /\ (forall j k v,
          j <= k -> nth_error (values c) j = Some (Some v) ->
          (forall t, j < t <= k -> nth_error (values c) t = Some None) ->
          nth_error (values c') k = Some (Some v))
    /\ (forall j k v,
          k <= j ->
          (forall t, t < j -> nth_error (values c) t = Some None) ->
          nth_error (values c) j = Some (Some v) ->
          nth_error (values c') k = Some (Some v)).
Proof.
  intros Hi Hk. exists (impute_column c).
  rewrite columns_impute, nth_error_map, Hi.
  rewrite values_impute_column, Hk. split; [reflexivity|]. split.
  - intros j k v Hjk Hj Hgap.
    apply bfill_nth_value. now apply (ffill_from_forward _ _ j k).
  - intros j k v Hkj Hlead Hj.
    destruct (ffill_from_leading _ j v Hlead Hj) as [H1 H2].
    now apply (bfill_backward _ j k).
Qed.

Lemma neighbour_fill_witness :
  exists c',
    nth_error (columns (impute dated)) 0 = Some c'
    /\ nth_error (values c') 3 = Some (Some (VTime 5))
    /\ nth_error (values c') 0 = Some (Some (VTime 5)).
Proof.
  destruct (neighbour_fill dated 0
              (mkColumn "day" DOther
                 [None; Some (VTime 5); None; None; Some (VTime 9)])
              eq_refl eq_refl) as (c' & Hc & Hf & Hb).
  exists c'. split; [exact Hc|]. split.
  - apply (Hf 1 3); [lia | reflexivity |].
    intros t Ht. assert (t = 2 \/ t = 3) as [-> | ->] by lia; reflexivity.
  - apply (Hb 1 0); [lia | | reflexivity].
    intros t Ht. assert (t = 0) as -> by lia. reflexivity.
Defined.

(** ** Running a stage twice *)

Lemma lstrip_fixed (s : string) :
  not_space (first_char s) -> Label.lstrip s = s.
Proof.
  destruct s as [|c s]; simpl; trivial.
  unfold first_char, chars. simpl. now intros ->.
Qed.

Lemma rstrip_fixed (s : string) :
  not_space (last_char s) -> Label.rstrip s = s.
Proof.
  induction s as [|c s IH]; simpl; trivial.
  rewrite last_char_cons.
  destruct s as [|d s].
  - simpl. unfold last_char, chars. simpl. now intros ->.
  - destruct (last_char (String d s)) as [e|] eqn:E.
    + intro H. rewrite IH by exact H. reflexivity.
    + unfold last_char, chars in E. simpl in E.
      destruct (rev (list_ascii_of_string s)); discriminate.
Qed.

Lemma first_char_map (f : ascii -> ascii) (s : string) :
  first_char (Label.map_chars f s) = option_map f (first_char s).
Proof. now destruct s. Qed.

Lemma last_char_map (f : ascii -> ascii) (s : string) :
  last_char (Label.map_chars f s) = option_map f (last_char s).
Proof.
  unfold last_char. rewrite chars_map_chars, <- map_rev.
  now destruct (rev (chars s)).
Qed.

Lemma map_chars_fixed (f : ascii -> ascii) (s : string) :
  Forall (fun c => f c = c) (chars s) -> Label.map_chars f s = s.
Proof.
  unfold chars. induction s as [|c s IH]; simpl; trivial.
  intro H. inversion H as [|? ? Hc Hs]; subst. now rewrite Hc, IH.
Qed.

Lemma map_chars_compose (f g : ascii -> ascii) (s : string) :
  Label.map_chars f (Label.map_chars g s)
  = Label.map_chars (fun c => f (g c)) s.
Proof. induction s as [|c s IH]; simpl; congruence. Qed.

Lemma normalized_char_not_space (c : ascii) :
  Label.is_space c = false ->
  Label.is_space
    (Label.lower_char (if Ascii.eqb c " "%char then "_"%char else c))
  = false.
Proof.
  destruct c as [[] [] [] [] [] [] [] []]; vm_compute; congruence.
Qed.

(** Stage 4 is idempotent: a normalized name is its own normal form, so
    renaming the columns of a renamed table changes nothing. *)
Theorem normalize_idempotent :
  (forall s, Label.normalize (Label.normalize s) = Label.normalize s)
  /\ (forall df, rename_columns (rename_columns df) = rename_columns df).
Proof.
  assert (Hn : forall s,
             Label.normalize (Label.normalize s) = Label.normalize s).
  { intro s.
    set (g := fun c => Label.lower_char
                         (if Ascii.eqb c " "%char then "_"%char else c)).
    assert (Hform : Label.normalize s = Label.map_chars g (Label.strip s)).
    { unfold Label.normalize, Label.lower, Label.replace_spaces, g.
      now rewrite map_chars_compose. }
    destruct (strip_trims s) as (pre & post & _ & _ & _ & Hf & Hl).
    assert (Hstrip : Label.strip (Label.normalize s) = Label.normalize s).
    { unfold Label.strip. rewrite lstrip_fixed.
      - apply rstrip_fixed. rewrite Hform, last_char_map.
        destruct (last_char (Label.strip s)); simpl; trivial.
        now apply normalized_char_not_space.
      - rewrite Hform, first_char_map.
        destruct (first_char (Label.strip s)); simpl; trivial.
        now apply normalized_char_not_space. }
    unfold Label.normalize at 1. rewrite Hstrip.
    assert (Hchars : Forall (fun c => c <> " "%char /\ is_upper c = false)
                       (chars (Label.normalize s))).
    { rewrite chars_normalize. apply Forall_map, Forall_forall.
      intros c _. apply normalized_char. }
    unfold Label.replace_spaces. rewrite map_chars_fixed.
    - unfold Label.lower. apply map_chars_fixed.
      eapply Forall_impl; [|exact Hchars]. intros c [_ Hu].
      rewrite lower_char_spec. now rewrite Hu.
    - eapply Forall_impl; [|exact Hchars]. intros c [Hc _].
      destruct (Ascii.eqb_spec c " "%char); congruence. }
  split; [exact Hn|].
  intro df. unfold rename_columns, map_columns. simpl. f_equal.
  rewrite map_map. apply map_ext. intro c. simpl. now rewrite Hn.
Qed.

Lemma mark_seen_fresh (seen rs : list (list cell)) :
  NoDup rs -> (forall r, In r rs -> ~ In r seen) ->
  mark_seen seen rs = repeat false (length rs).
Proof.
  intro H. revert seen. induction H as [|r rs Hr Hrs IH]; intros seen Hf.
  - reflexivity.
  - simpl. f_equal.
    + destruct (existsb (row_eqb r) seen) eqn:E; trivial.
      apply existsb_row_eqb in E. exfalso. apply (Hf r); [now left | exact E].
    + apply IH. intros x Hx [<- | Hs]; [contradiction|].
      apply (Hf x); [now right | exact Hs].
Qed.

Lemma select_all (A : Type) (l : list A) :
  select (repeat true (length l)) l = l.
Proof. induction l as [|x l IH]; simpl; congruence. Qed.

Lemma sum_true_repeat_false (n : nat) : sum_true (repeat false n) = 0.
Proof. unfold sum_true. induction n as [|n IH]; simpl; trivial. Qed.

Lemma negb_repeat_false (n : nat) :
  map negb (repeat false n) = repeat true n.
Proof. induction n as [|n IH]; simpl; congruence. Qed.

(** Stage 2 is idempotent: once the duplicate rows are dropped, no row is
    a duplicate any more and dropping duplicates again returns the same
    table. *)
Theorem drop_duplicates_idempotent (df : DataFrame) :
  well_formed df = true ->
  sum_true (duplicated (drop_duplicates df)) = 0
  /\ drop_duplicates (drop_duplicates df) = drop_duplicates df.
Proof.
  intro Hwf.
  pose proof (drop_duplicates_aligned df (well_formed_aligned df Hwf))
    as Hal.
  set (d := drop_duplicates df) in *.
  destruct (empty d) eqn:Ed.
  - unfold duplicated, drop_duplicates. rewrite Ed. split; reflexivity.
  - assert (He : empty df = false).
    { destruct (empty df) eqn:E; trivial.
      unfold d, drop_duplicates in Ed. rewrite E in Ed. congruence. }
    assert (Hnd : NoDup (rows d)).
    { unfold d. rewrite rows_drop_duplicates by exact He.
      apply select_unmarked_NoDup. }
    assert (Hm : duplicated d = repeat false (nrows d)).
    { unfold duplicated. rewrite Ed.
      rewrite mark_seen_fresh;
        [unfold rows; now rewrite iter_rows_length
        | exact Hnd | intros r _ []]. }
    split.
    + rewrite Hm. apply sum_true_repeat_false.
    + unfold drop_duplicates at 1. rewrite Ed, Hm, negb_repeat_false.
      unfold aligned in Hal. destruct d as [idx cols]. simpl in *.
      unfold nrows in *. simpl in *. f_equal.
      * apply select_all.
      * rewrite <- (map_id cols) at 2. apply map_ext_in.
        intros c Hc. rewrite Forall_forall in Hal.
        unfold select_column. rewrite <- (Hal c Hc), select_all.
        now destruct c.
Qed.

Lemma drop_duplicates_idempotent_witness :
  well_formed three_rows = true
  /\ nrows (drop_duplicates (drop_duplicates three_rows)) = 2.
Proof.
  split; [reflexivity|].
  destruct (drop_duplicates_idempotent three_rows eq_refl) as [_ H].
  rewrite H. reflexivity.
Defined.

(** * File names and downloads *)

Section Routes.

Import Main.
Local Open Scope string_scope.

Lemma string_length_app (a b : string) :
  String.length (a ++ b) = String.length a + String.length b.
Proof. induction a as [|c a IH]; simpl; congruence. Qed.

Lemma substring_app_skip (d f : string) (n m : nat) :
  String.substring (String.length d + n) m (d ++ f) = String.substring n m f.
Proof. induction d as [|c d IH]; simpl; trivial. Qed.

Lemma endswith_app (d f suffix : string) :
  endswith f suffix = true -> endswith (d ++ f) suffix = true.
Proof.
  unfold endswith. rewrite !andb_true_iff, !Nat.leb_le, string_length_app.
  intros [Hlen Heq]. split; [lia|].
  replace (String.length d + String.length f - String.length suffix)%nat
    with (String.length d + (String.length f - String.length suffix))%nat
    by lia.
  now rewrite substring_app_skip.
Qed.

Lemma contains_unfold (sub s : string) :
  contains sub s
  = (String.prefix sub s
     || match s with
        | EmptyString => false
        | String _ t => contains sub t
        end)%bool.
Proof. now destruct s. Qed.

Lemma contains_app_r (sub a b : string) :
  contains sub b = true -> contains sub (a ++ b) = true.
Proof.
  intro H. induction a as [|c a IH]; simpl; trivial.
  rewrite IH. apply orb_true_r.
Qed.

Lemma contains_slash (s : string) :
  contains "/" s = false <-> ~ In "/"%char (chars s).
Proof.
  induction s as [|c s IH].
  - simpl. split; [tauto | trivial].
  - rewrite contains_unfold.
    change (chars (String c s)) with (c :: chars s).
    assert (Hp : String.prefix "/" (String c s)
                 = if ascii_dec "/" c then true else false).
    { cbn [String.prefix].
      destruct (ascii_dec "/" c); [destruct s|]; reflexivity. }
    rewrite Hp. destruct (ascii_dec "/" c) as [E | E]; simpl.
    + split; [discriminate|]. intro H. exfalso. apply H. left. auto.
    + rewrite IH. split.
      * intros H [E' | E']; [congruence | contradiction].
      * intros H E'. apply H. now right.
Qed.

Lemma join_plain_name (f : string) :
  contains "/" f = false ->
  os_path_join "processed_data" f = "processed_data/" ++ f.
Proof.
  intro H. unfold os_path_join, startswith.
  rewrite contains_unfold in H. apply orb_false_iff in H as [Hp _].
  now rewrite Hp.
Qed.

(** [download_file] serves a file exactly when the name holds neither a
    slash nor two dots in a row and the file exists directly inside
    [processed_data]; the path it serves is then that directory, one
    slash and the name. *)
Theorem download_serves_processed_data_only
    (path_exists : string -> bool) (f p n m : string) :
  download_file path_exists f = FileResponse p n m
  <-> (p = "processed_data/" ++ f /\ n = f /\ m = xlsx_media_type
       /\ path_exists p = true
       /\ ~ In "/"%char (chars f) /\ contains ".." f = false).
Proof.
  unfold download_file.
  destruct (contains ".." f) eqn:Ed; simpl.
  - split; [discriminate | intros (_ & _ & _ & _ & _ & H); discriminate].
  - destruct (contains "/" f) eqn:Es.
    + split; [discriminate|]. intros (_ & _ & _ & _ & H & _).
      apply contains_slash in H. congruence.
    + rewrite (join_plain_name f Es).
      destruct (path_exists ("processed_data/" ++ f)) eqn:Ex; cbn [negb].
      * split.
        -- intro H. injection H as <- <- <-. repeat split; trivial.
           now apply contains_slash.
        -- intros (-> & -> & -> & _). reflexivity.
      * split; [discriminate|]. intros (-> & _ & _ & H & _).
        change (path_exists ("processed_data/" ++ f) = true) in H.
        congruence.
Qed.

(** The cleaned sheet of an upload whose name holds neither a slash nor
    two dots in a row is written where [download_file] looks for it: once
    the file exists, the download route of that name serves it. *)
Theorem cleaned_file_is_downloadable
    (path_exists : string -> bool) (f : string) :
  contains ".." f = false ->
  contains "/" f = false ->
  path_exists (output_path f) = true ->
  output_path f = "processed_data/" ++ f
  /\ file_download_url f = "/download/" ++ f
  /\ download_file path_exists f
     = FileResponse (output_path f) f xlsx_media_type.
Proof.
  intros Hd Hs Hex. unfold output_path in *.
  split; [now apply join_plain_name|]. split; [reflexivity|].
  unfold download_file. rewrite Hd, Hs. simpl. now rewrite Hex.
Qed.

Lemma cleaned_file_is_downloadable_witness :
  download_file (String.eqb "processed_data/sales.xlsx") "sales.xlsx"
  = FileResponse "processed_data/sales.xlsx" "sales.xlsx" xlsx_media_type.
Proof.
  now destruct (cleaned_file_is_downloadable
                  (String.eqb "processed_data/sales.xlsx") "sales.xlsx"
                  eq_refl eq_refl eq_refl) as (_ & _ & H).
Defined.

(** The upload guard looks at the end of the name only.  A name with a
    directory part in front of an accepted name is accepted as well; its
    cleaned sheet is written below that directory part (at the name
    itself when it is absolute) and the download route refuses the
    name. *)
Theorem upload_guard_checks_suffix_only
    (path_exists : string -> bool) (dir f : string) :
  excel_filename f = true ->
  let name := dir ++ "/" ++ f in
  excel_filename name = true
  /\ (startswith name "/" = true -> output_path name = name)
  /\ (startswith name "/" = false ->
        output_path name = "processed_data/" ++ name)
  /\ download_file path_exists name
     = JSONResponse 400 [("error", "Invalid filename")].
Proof.
  intros H name. split; [|split; [|split]].
  - unfold excel_filename, name in *. apply orb_true_iff in H as [H | H].
    + rewrite (endswith_app dir ("/" ++ f)); trivial.
      now apply (endswith_app "/").
    + rewrite (endswith_app dir ("/" ++ f) ".xls");
        [apply orb_true_r | now apply (endswith_app "/")].
  - intro Hd. unfold output_path, os_path_join. now rewrite Hd.
  - intro Hd. unfold output_path, os_path_join. rewrite Hd.
    change (String.eqb "processed_data" "" || endswith "processed_data" "/")%bool
      with false.
    reflexivity.
  - unfold download_file, name.
    rewrite (contains_app_r "/" dir ("/" ++ f)).
    + now rewrite orb_true_r.
    + destruct (contains "/" ("/" ++ f)) eqn:E; trivial.
      apply contains_slash in E. exfalso. apply E. now left.
Qed.

Lemma upload_guard_checks_suffix_only_witness :
  excel_filename "../x.xlsx" = true
  /\ output_path "../x.xlsx" = "processed_data/../x.xlsx"
  /\ download_file (fun _ => true) "../x.xlsx"
     = JSONResponse 400 [("error", "Invalid filename")].
Proof.
  destruct (upload_guard_checks_suffix_only (fun _ => true) ".." "x.xlsx"
              eq_refl) as (H1 & _ & H2 & H3).
  split; [exact H1|]. split; [exact (H2 eq_refl) | exact H3].
Defined.

End Routes.

(** * Chart insights *)

Section EnhanceFacts.

Import Analyses.
Local Open Scope string_scope.

Lemma analyse_described (g : string -> string + string)
    (cs : list (string * string)) (out : list (string * enhanced_chart)) :
  analyse g cs = inr out ->
  Forall2 (described g) (filter (fun c => usable (snd c)) cs) out.
Proof.
  revert out. induction cs as [|[name data] cs IH]; intros out H; simpl in *.
  - injection H as <-. constructor.
  - destruct (usable data) eqn:Eu; [|now apply IH].
    destruct (g name) as [text|msg] eqn:Eg; [|discriminate].
    destruct (analyse g cs) as [msg|rest]; [discriminate|].
    injection H as <-. constructor; [|now apply IH].
    repeat split; trivial.
Qed.

Lemma analyse_ext (g1 g2 : string -> string + string)
    (cs : list (string * string)) :
  (forall c, In c cs -> usable (snd c) = true -> g1 (fst c) = g2 (fst c)) ->
  analyse g1 cs = analyse g2 cs.
Proof.
  induction cs as [|[name data] cs IH]; intro H; simpl; trivial.
  rewrite IH by (intros c Hc; apply H; now right).
  destruct (usable data) eqn:Eu; trivial.
  pose proof (H (name, data) (or_introl eq_refl) Eu) as E. simpl in E.
  now rewrite E.
Qed.

Lemma analyse_failure (g : string -> string + string)
    (cs : list (string * string)) (c : string * string) (msg : string) :
  In c cs -> usable (snd c) = true -> g (fst c) = inr msg ->
  exists e, analyse g cs = inl e.
Proof.
  induction cs as [|[name data] cs IH]; intros Hin Hu Hg; [contradiction|].
  simpl. destruct Hin as [<- | Hin]; simpl in *.
  - rewrite Hu, Hg. eauto.
  - destruct (IH Hin Hu Hg) as [e He]. rewrite He.
    destruct (usable data); [destruct (g name)|]; eauto.
Qed.

Lemma keys_basic (cs : list (string * string)) :
  map fst (map basic cs) = map fst cs.
Proof. rewrite map_map. now apply map_ext. Qed.

Lemma described_keys (g : string -> string + string)
    (cs : list (string * string)) (out : list (string * enhanced_chart)) :
  Forall2 (described g) cs out -> map fst out = map fst cs.
Proof.
  induction 1 as [|c e cs out (Hk & _) _ IH]; simpl; congruence.
Qed.

(** When [enhance_charts_with_ai] succeeds, its answer lists the usable
    charts among the first two, each with its image unchanged and the
    model's text, followed by every later chart, usable or not, with its
    image unchanged and no analysis.  A chart among the first two that is
    empty or starts with "Error" is left out of the answer. *)
Theorem enhanced_charts_structure (g : string -> string + string)
    (charts : list (string * string))
    (out : list (string * enhanced_chart)) :
  enhance_charts_with_ai g charts = inr out ->
  exists analysed,
    out = (analysed ++ map basic (skipn 2 charts))%list
    /\ Forall2 (described g)
         (filter (fun c => usable (snd c)) (firstn 2 charts)) analysed
    /\ (forall c, In c (skipn 2 charts) ->
          In (fst c, mkEnhanced (snd c)
                       "Basic chart - no AI analysis applied" false) out)
    /\ (NoDup (map fst charts) ->
        forall c, In c (firstn 2 charts) -> usable (snd c) = false ->
          ~ In (fst c) (map fst out)).
Proof.
  unfold enhance_charts_with_ai. intro H.
  destruct charts as [|c0 cs0] eqn:Ec; [discriminate|]. rewrite <- Ec in *.
  destruct (analyse g (firstn 2 charts)) as [msg|analysed] eqn:Ea;
    [discriminate|].
  injection H as <-. exists analysed.
  pose proof (analyse_described g _ _ Ea) as Hd.
  split; [reflexivity|]. split; [exact Hd|]. split.
  - intros c Hc. apply in_or_app. right.
    change (In (basic c) (map basic (skipn 2 charts))). now apply in_map.
  - intros Hnd c Hc Hu Hin.
    rewrite map_app, keys_basic, (described_keys g _ _ Hd) in Hin.
    rewrite <- (firstn_skipn 2 charts), map_app in Hnd.
    apply in_app_or in Hin as [Hin | Hin].
    + apply in_map_iff in Hin as (c' & Hk & Hc').
      apply filter_In in Hc' as [Hc' Hu'].
      assert (c' = c).
      { apply NoDup_app_remove_r in Hnd.
        pose proof (NoDup_map_inv _ _ Hnd) as Hnd'.
        apply (proj1 (NoDup_map_iff _ _ fst _ Hnd') Hnd); trivial. }
      subst. congruence.
    + apply (in_map fst) in Hc.
      revert Hin Hc. generalize (fst c). clear -Hnd.
      induction (map fst (firstn 2 charts)) as [|k ks IH];
        intros x Hin Hx; [contradiction|].
      simpl in Hnd. inversion Hnd as [|? ? Hk Hks]; subst.
      destruct Hx as [<- | Hx].
      * apply Hk. apply in_or_app. now right.
      * now apply (IH Hks x).
Qed.

Lemma enhanced_charts_structure_witness :
  exists out,
    enhance_charts_with_ai sample_model sample_charts = inr out
    /\ map fst out = ["barchart_city"; "barchart_team"].
Proof.
  destruct (enhance_charts_with_ai sample_model sample_charts)
    as [e|out] eqn:E.
  - vm_compute in E. discriminate E.
  - exists out. split; [reflexivity|].
    destruct (enhanced_charts_structure sample_model sample_charts out E)
      as (analysed & -> & Hd & _).
    apply described_keys in Hd.
    rewrite map_app, keys_basic, Hd. reflexivity.
Defined.

(** The model is consulted for the usable charts among the first two and
    for no other chart: two models that agree on those give the same
    answer. *)
Theorem model_asked_for_first_two_only
    (g1 g2 : string -> string + string) (charts : list (string * string)) :
  (forall c, In c (firstn 2 charts) -> usable (snd c) = true ->
             g1 (fst c) = g2 (fst c)) ->
  enhance_charts_with_ai g1 charts = enhance_charts_with_ai g2 charts.
Proof.
  intro H. unfold enhance_charts_with_ai.
  now rewrite (analyse_ext g1 g2 _ H).
Qed.

Lemma model_asked_for_first_two_only_witness :
  enhance_charts_with_ai sample_model sample_charts
  = enhance_charts_with_ai
      (fun n => if String.eqb n "barchart_city" then sample_model n
                else inr "quota exceeded")
      sample_charts.
Proof.
  apply model_asked_for_first_two_only.
  intros c [<- | [<- | []]] Hu; [reflexivity | discriminate Hu].
Defined.

(** One failing model call loses every chart: when the call for a usable
    chart among the first two raises, the answer is the error dict and
    holds no chart, not even those that need no analysis.  The empty dict
    of charts is answered with an error as well. *)
Theorem failed_insight_loses_all_charts
    (g : string -> string + string) (charts : list (string * string))
    (c : string * string) (msg : string) :
  In c (firstn 2 charts) -> usable (snd c) = true -> g (fst c) = inr msg ->
  (exists e, enhance_charts_with_ai g charts
             = inl ("AI enhancement failed: " ++ e))
  /\ enhance_charts_with_ai g []
     = inl "No charts available for AI enhancement".
Proof.
  intros Hin Hu Hg. split; [|reflexivity].
  destruct (analyse_failure g _ c msg Hin Hu Hg) as [e He].
  exists e. unfold enhance_charts_with_ai. rewrite He.
  destruct charts; [contradiction | reflexivity].
Qed.

Lemma failed_insight_loses_all_charts_witness :
  exists e,
    enhance_charts_with_ai (fun _ => inr "quota exceeded") sample_charts
    = inl ("AI enhancement failed: " ++ e).
Proof.
  now destruct (failed_insight_loses_all_charts
                  (fun _ => inr "quota exceeded") sample_charts
                  ("barchart_city", "data:image/png;base64,AAAA")
                  "quota exceeded" (or_introl eq_refl) eq_refl eq_refl)
    as [H _].
Defined.

End EnhanceFacts.
